(** * Supervision lifecycle of [dev/start_mock_agents.py]

    A shallow embedding of the launcher, the liveness monitor and the
    shutdown coordinator of the mock-agent script, together with the part
    of [subprocess.Popen] and of the operating system they rely on, and of
    the head of [main]: the discovery of the agent files, the listing, and
    the loading of the configuration.

    Conventions.
    - Instants and durations are natural numbers of milliseconds
      ([time.sleep(1)] is 1000, [PROCESS_TERMINATE_TIMEOUT = 5.0] is 5000).
    - A Python [str] is a [string] of 8-bit characters.
    - The list [processes] holds references to mutable [Popen] objects; the
      model threads the list through every function and returns the updated
      objects in place.
    - Everything the script does to the outside (log calls, [print], process
      creation, reads of a child's pipe, signals, waits) is recorded, in
      program order, in a list of [Event]s.
    - The document [yaml.safe_load] returns is a [PyVal]; a computation
      that can call [sys.exit] or let an exception escape is a [Run]. *)

From stdpp Require Import base decidable option numbers list gmap sets strings
  sorting.
From Stdlib Require Import Ascii String DecimalString.

Local Open Scope string_scope.
Local Open Scope N_scope.
Local Open Scope list_scope.

(** ** Python strings *)

Module PyStr.

(** [str.isspace] on the ASCII range: TAB, LF, VT, FF, CR, the four
    separators 0x1c-0x1f and the blank. *)
Definition isspace (c : ascii) : bool :=
  let n := N_of_ascii c in
  ((9 <=? n) && (n <=? 13)) || ((28 <=? n) && (n <=? 32)).

Fixpoint lstrip (s : string) : string :=
  match s with
  | EmptyString => EmptyString
  | String c r => if isspace c then lstrip r else s
  end.

Fixpoint rstrip (s : string) : string :=
  match s with
  | EmptyString => EmptyString
  | String c r =>
      match rstrip r with
      | EmptyString => if isspace c then EmptyString else String c EmptyString
      | r' => String c r'
      end
  end.

(** [s.strip()] *)
Definition strip (s : string) : string := rstrip (lstrip s).

(** [s.split(sep)] for a one-character separator: never empty, the empty
    pieces are kept. *)
Fixpoint split (sep : ascii) (s : string) : list string :=
  match s with
  | EmptyString => [EmptyString]
  | String c r =>
      match split sep r with
      | [] => [String c EmptyString]
      | w :: ws =>
          if Ascii.eqb c sep then EmptyString :: w :: ws
          else String c w :: ws
      end
  end.

Definition to_lower (c : ascii) : ascii :=
  let n := N_of_ascii c in
  if (65 <=? n) && (n <=? 90) then ascii_of_N (n + 32) else c.

(** [s.lower()] on the ASCII range. *)
Fixpoint lower (s : string) : string :=
  match s with
  | EmptyString => EmptyString
  | String c r => String (to_lower c) (lower r)
  end.

(** The line feed. *)
Definition LF : ascii := ascii_of_N 10.

(** Truthiness of a [str]. *)
Definition truthy (s : string) : bool :=
  match s with EmptyString => false | _ => true end.

End PyStr.

(** ** Constants of the script *)

Definition EXIT_SUCCESS : Z := 0%Z.
Definition EXIT_CONFIG_ERROR : Z := 1%Z.
Definition EXIT_AGENT_DIR_NOT_FOUND : Z := 2%Z.
Definition EXIT_NO_AGENTS : Z := 3%Z.
Definition EXIT_USER_ABORT : Z := 130%Z.

(** [PROCESS_TERMINATE_TIMEOUT = 5.0] seconds. *)
Definition PROCESS_TERMINATE_TIMEOUT : N := 5000.

(** The argument of [time.sleep(1)] in the monitor loop. *)
Definition POLL_INTERVAL : N := 1000.

(** ** Observable events *)

Inductive Level := DEBUG | INFO | WARNING | ERROR.

Inductive Arg :=
| AStr (s : string)
| AInt (z : Z)
| AList (l : list string).

(** One call [log.<level>(msg, *args)], kept as [logging] keeps it: the
    format and its arguments. *)
Record LogRecord := mkLog {
  lr_level : Level;
  lr_msg : string;
  lr_args : list Arg
}.

Inductive Event :=
| ELog (r : LogRecord)
| EPrint (s : string)
| ESpawn (pid : nat) (name : string)
| EReadStdout (pid : nat)
| ETerminate (pid : nat) (at_ : N)
| EWait (pid : nat) (from until : N) (expired : bool)
| EKill (pid : nat) (at_ : N).

#[global] Instance Level_eq_dec : EqDecision Level.
Proof. solve_decision. Defined.
#[global] Instance Arg_eq_dec : EqDecision Arg.
Proof. solve_decision. Defined.
#[global] Instance LogRecord_eq_dec : EqDecision LogRecord.
Proof. solve_decision. Defined.
#[global] Instance Event_eq_dec : EqDecision Event.
Proof. solve_decision. Defined.

(** ** Child processes and [subprocess.Popen] *)

(** What a child does, as far as the supervisor can tell. *)
Record Behaviour := mkBehaviour {
  b_exit_at : option N;      (* instant at which it exits by itself *)
  b_exit_code : Z;           (* status of that exit *)
  b_term_delay : option N;   (* delay between SIGTERM and exit; None: ignored *)
  b_output : string          (* all it writes to stdout and stderr *)
}.

(** A [Popen] object. [returncode] is the attribute of that name; the two
    signal fields remember what was delivered to the child; [drained] says
    whether [stdout.read()] already consumed the pipe. *)
Record Popen := mkPopen {
  pid : nat;
  args : list string;
  behaviour : Behaviour;
  returncode : option Z;
  sigterm_at : option N;
  sigkill_at : option N;
  drained : bool
}.

Definition SIGTERM : Z := 15%Z.
Definition SIGKILL : Z := 9%Z.

(** The ways a child can end, each an instant and the status [Popen]
    reports for it (minus the signal number for a death by signal). *)
Definition exit_candidates (p : Popen) : list (N * Z) :=
  match b_exit_at (behaviour p) with
  | Some e => [(e, b_exit_code (behaviour p))]
  | None => []
  end ++
  match sigterm_at p, b_term_delay (behaviour p) with
  | Some s, Some d => [(s + d, (- SIGTERM)%Z)]
  | _, _ => []
  end ++
  match sigkill_at p with
  | Some k => [(k, (- SIGKILL)%Z)]
  | None => []
  end.

Fixpoint earliest (l : list (N * Z)) : option (N * Z) :=
  match l with
  | [] => None
  | x :: r =>
      match earliest r with
      | Some y => if x.1 <=? y.1 then Some x else Some y
      | None => Some x
      end
  end.

(** The instant and status of the child's end, if it ends at all. *)
Definition death (p : Popen) : option (N * Z) := earliest (exit_candidates p).

Definition set_returncode (c : Z) (p : Popen) : Popen :=
  mkPopen (pid p) (args p) (behaviour p) (Some c)
          (sigterm_at p) (sigkill_at p) (drained p).

Definition set_sigterm (t : N) (p : Popen) : Popen :=
  mkPopen (pid p) (args p) (behaviour p) (returncode p)
          (Some t) (sigkill_at p) (drained p).

Definition set_sigkill (t : N) (p : Popen) : Popen :=
  mkPopen (pid p) (args p) (behaviour p) (returncode p)
          (sigterm_at p) (Some t) (drained p).

Definition set_drained (p : Popen) : Popen :=
  mkPopen (pid p) (args p) (behaviour p) (returncode p)
          (sigterm_at p) (sigkill_at p) true.

(** [proc.poll()] at instant [now]: the cached [returncode] when there is
    one, else a non-blocking look at the child. *)
Definition poll (now : N) (p : Popen) : option Z * Popen :=
  match returncode p with
  | Some c => (Some c, p)
  | None =>
      match death p with
      | Some (d, c) =>
          if d <=? now then (Some c, set_returncode c p) else (None, p)
      | None => (None, p)
      end
  end.

(** [proc.send_signal]: polls first and sends nothing to a child already
    reaped. *)
Definition terminate (now : N) (p : Popen) : Popen :=
  let '(rc, p1) := poll now p in
  match rc with
  | Some _ => p1
  | None => match sigterm_at p1 with Some _ => p1 | None => set_sigterm now p1 end
  end.

Definition kill (now : N) (p : Popen) : Popen :=
  let '(rc, p1) := poll now p in
  match rc with
  | Some _ => p1
  | None => match sigkill_at p1 with Some _ => p1 | None => set_sigkill now p1 end
  end.

(** [proc.wait(timeout=...)] begun at [now]: [inl] is a normal return,
    [inr] is [TimeoutExpired]; both come with the instant at which control
    is back. *)
Definition wait (now timeout : N) (p : Popen) : (N * Popen) + (N * Popen) :=
  match returncode p with
  | Some _ => inl (now, p)
  | None =>
      match death p with
      | Some (d, c) =>
          if d <=? now + timeout
          then inl (N.max now d, set_returncode c p)
          else inr (now + timeout, p)
      | None => inr (now + timeout, p)
      end
  end.

(** [proc.stdout.read()]: everything the child wrote, once. *)
Definition stdout_read (p : Popen) : string * Popen :=
  if drained p then (EmptyString, p)
  else (b_output (behaviour p), set_drained p).

(** A handle: the tuple [(agent_name, process)]. *)
Definition Handle : Type := string * Popen.

Definition log (l : Level) (msg : string) (a : list Arg) : Event :=
  ELog (mkLog l msg a).

(** The value of [proc.returncode] as a log argument; it is set wherever
    the script uses it, a [poll] having just answered. *)
Definition rc_arg (p : Popen) : list Arg :=
  match returncode p with
  | Some c => [AInt c]
  | None => []
  end.

(** ** [handle_dead_agent] *)

(** The loop [for line in output.strip().split("\n")]. *)
Definition output_lines (name output : string) : list Event :=
  map (fun line => log WARNING "  %s: %s" [AStr name; AStr line])
      (PyStr.split PyStr.LF (PyStr.strip output)).

(** [proc.stdout] is the pipe the child was created with, so the test
    [if proc.stdout] holds. *)
Definition handle_dead_agent (name : string) (proc : Popen)
  : list Event * Popen :=
  let status :=
    log WARNING "Agent %s exited with code %d" (AStr name :: rc_arg proc) in
  let '(output, proc1) := stdout_read proc in
  if PyStr.truthy output
  then (status :: EReadStdout (pid proc) :: output_lines name output, proc1)
  else ([status; EReadStdout (pid proc)], proc1).

(** ** [shutdown_agents] *)

(** Body of the first loop: [if proc.poll() is None: proc.terminate()]. *)
Definition terminate_if_running (now : N) (h : Handle) : Handle * list Event :=
  let '(name, proc) := h in
  let '(rc, proc1) := poll now proc in
  match rc with
  | None =>
      ((name, terminate now proc1),
       [log DEBUG "Terminating %s" [AStr name]; ETerminate (pid proc1) now])
  | Some _ => ((name, proc1), [])
  end.

Fixpoint send_terminate (now : N) (ps : list Handle)
  : list Handle * list Event :=
  match ps with
  | [] => ([], [])
  | h :: rest =>
      let '(h', evs) := terminate_if_running now h in
      let '(rest', evs') := send_terminate now rest in
      (h' :: rest', evs ++ evs')
  end.

(** Body of the second loop: [proc.wait(timeout=PROCESS_TERMINATE_TIMEOUT)],
    and [proc.kill()] in the [except subprocess.TimeoutExpired] branch. The
    first component is the instant at which the body is over. *)
Definition wait_or_kill (now : N) (h : Handle) : N * Handle * list Event :=
  let '(name, proc) := h in
  match wait now PROCESS_TERMINATE_TIMEOUT proc with
  | inl (t, proc1) =>
      (t, (name, proc1),
       [EWait (pid proc) now t false;
        log DEBUG "%s terminated" [AStr name]])
  | inr (t, proc1) =>
      (t, (name, kill t proc1),
       [EWait (pid proc) now t true;
        log WARNING "%s did not terminate, killing" [AStr name];
        EKill (pid proc1) t])
  end.

Fixpoint await_all (now : N) (ps : list Handle)
  : N * list Handle * list Event :=
  match ps with
  | [] => (now, [], [])
  | h :: rest =>
      let '(t, h', evs) := wait_or_kill now h in
      let '(tend, rest', evs') := await_all t rest in
      (tend, h' :: rest', evs ++ evs')
  end.

Definition shutdown_agents (now : N) (ps : list Handle)
  : N * list Handle * list Event :=
  let '(ps1, evs1) := send_terminate now ps in
  let '(tend, ps2, evs2) := await_all now ps1 in
  (tend, ps2,
   log INFO "Shutting down %d agent(s)..." [AInt (Z.of_nat (List.length ps))]
     :: evs1 ++ evs2 ++ [log INFO "Shutdown complete" []]).

(** ** [monitor_processes] *)

(** When the [KeyboardInterrupt] is raised inside the [try] of the monitor:
    in polling cycle [cycle] just before the loop body runs for the handle
    at index [pos], or [after] milliseconds into the [time.sleep(1)] that
    follows cycle [cycle]. Cycles count from 0; cycle [k] runs at instant
    [k * POLL_INTERVAL] and takes no time. An interrupt placed where the
    loop never gets (an index past the last handle, a cycle after the
    [break]) is not raised inside the [try]; none is raised once
    [shutdown_agents] has begun. *)
Inductive Interrupt :=
| InLoop (cycle pos : nat)
| InSleep (cycle : nat) (after : N).

Record Scan := mkScan {
  sc_procs : list Handle;
  sc_reported : gset string;
  sc_alive : nat;
  sc_events : list Event;
  sc_raised : bool
}.

Definition scan_cons (h : Handle) (evs : list Event) (r : Scan) : Scan :=
  mkScan (h :: sc_procs r) (sc_reported r) (sc_alive r)
         (evs ++ sc_events r) (sc_raised r).

(** One pass of [for name, proc in processes] at instant [now]. [stop] is
    the number of loop bodies that still run before the interrupt when it
    falls in this pass. *)
Fixpoint scan (now : N) (stop : option nat) (ps : list Handle)
         (reported_dead : gset string) (alive_count : nat) : Scan :=
  match ps with
  | [] => mkScan [] reported_dead alive_count [] false
  | (name, proc) :: rest =>
      match stop with
      | Some O => mkScan ps reported_dead alive_count [] true
      | _ =>
          let stop' := Nat.pred <$> stop in
          let '(rc, proc1) := poll now proc in
          match rc with
          | None =>
              scan_cons (name, proc1) []
                (scan now stop' rest reported_dead (S alive_count))
          | Some _ =>
              if decide (name ∈ reported_dead)
              then scan_cons (name, proc1) []
                     (scan now stop' rest reported_dead alive_count)
              else
                let '(evs, proc2) := handle_dead_agent name proc1 in
                scan_cons (name, proc2) evs
                  (scan now stop' rest ({[name]} ∪ reported_dead) alive_count)
          end
      end
  end.

Definition cycle_time (cycle : nat) : N := N.of_nat cycle * POLL_INTERVAL.

Definition stop_in (intr : option Interrupt) (cycle : nat) : option nat :=
  match intr with
  | Some (InLoop c pos) => if decide (c = cycle) then Some pos else None
  | _ => None
  end.

Definition sleep_cut (intr : option Interrupt) (cycle : nat) : option N :=
  match intr with
  | Some (InSleep c after) =>
      if decide (c = cycle) then Some (N.min after POLL_INTERVAL) else None
  | _ => None
  end.

(** How the [while True] loop was left. *)
Inductive LoopExit :=
| Broke                       (* [break]: every handle had exited *)
| Interrupted (at_ : N)       (* [KeyboardInterrupt] *)
| StillLooping.               (* the fuel of the model ran out *)

Record Monitored := mkMonitored {
  m_exit : LoopExit;
  m_procs : list Handle;
  m_reported : gset string;
  m_events : list Event
}.

Definition monitored_cons (evs : list Event) (r : Monitored) : Monitored :=
  mkMonitored (m_exit r) (m_procs r) (m_reported r) (evs ++ m_events r).

(** The [while True] loop, from cycle [cycle] on, for at most [fuel]
    cycles. *)
Fixpoint monitor_loop (fuel : nat) (intr : option Interrupt) (cycle : nat)
         (ps : list Handle) (reported_dead : gset string) : Monitored :=
  match fuel with
  | O => mkMonitored StillLooping ps reported_dead []
  | S fuel' =>
      let now := cycle_time cycle in
      let r := scan now (stop_in intr cycle) ps reported_dead 0 in
      if sc_raised r
      then mkMonitored (Interrupted now) (sc_procs r) (sc_reported r)
                       (sc_events r)
      else if decide (sc_alive r = 0%nat)
      then mkMonitored Broke (sc_procs r) (sc_reported r)
                       (sc_events r ++ [log INFO "All agents have exited" []])
      else
        match sleep_cut intr cycle with
        | Some d =>
            mkMonitored (Interrupted (now + d)) (sc_procs r) (sc_reported r)
                        (sc_events r)
        | None =>
            monitored_cons (sc_events r)
              (monitor_loop fuel' intr (S cycle) (sc_procs r) (sc_reported r))
        end
  end.

(** How [monitor_processes] ended. *)
Inductive MonitorEnd :=
| Natural
| AfterShutdown (began ended : N)
| NoReturn.

Definition monitor_processes (fuel : nat) (intr : option Interrupt)
           (processes : list Handle)
  : MonitorEnd * list Handle * list Event :=
  let r := monitor_loop fuel intr 0 processes ∅ in
  match m_exit r with
  | Broke => (Natural, m_procs r, m_events r)
  | StillLooping => (NoReturn, m_procs r, m_events r)
  | Interrupted t =>
      let '(tend, ps, evs) := shutdown_agents t (m_procs r) in
      (AfterShutdown t tend, ps,
       m_events r ++ log INFO "Received interrupt signal" [] :: evs)
  end.

(** ** The launcher: [start_agent_process] and [start_agents] *)

(** A [pathlib.Path], as the list of its components. *)
Definition Path : Type := list string.

Definition path_div (p : Path) (x : string) : Path := p ++ [x].
Definition path_parent (p : Path) : Path := removelast p.
Definition path_str (p : Path) : string := String.concat "/" p.

(** What the script finds around it: which paths exist, the interpreter,
    its own directory, and what the [n]-th child it creates does when run
    on a given command line with a given [OCS_CONFIG_DIR]. Creating a child
    always succeeds; its standard output and error go to one pipe. *)
Record Env := mkEnv {
  path_exists : Path -> bool;
  sys_executable : string;
  SCRIPT_DIR : Path;
  child : nat -> list string -> string -> Behaviour
}.

(** [env] is the value of [OCS_CONFIG_DIR] in the environment handed to the
    child, the rest of which is the script's own. *)
Definition start_agent_process (E : Env) (next_pid : nat)
           (agent_script : Path)
           (agent_yaml crossbar_url realm address_root env : string)
  : Popen * list Event :=
  let yaml_path := path_div (path_parent agent_script) agent_yaml in
  let cmd :=
    [ sys_executable E; path_str agent_script;
      "--site-host"; "none";
      "--site-hub"; crossbar_url;
      "--site-realm"; realm;
      "--address-root"; address_root;
      "--schema-file"; path_str yaml_path ] in
  (mkPopen next_pid cmd (child E next_pid cmd env) None None None false,
   [ log DEBUG "Starting process: %s" [AStr (String.concat " " cmd)];
     ESpawn next_pid agent_yaml ]).

(** The loop [for agent_yaml in agents] of [start_agents]; [next_pid]
    counts the children created so far. *)
Fixpoint start_each (E : Env) (next_pid : nat) (agent_dir agent_script : Path)
         (agents : list string) (crossbar_url realm address_root env : string)
  : list Handle * list Event :=
  match agents with
  | [] => ([], [])
  | agent_yaml :: rest =>
      let yaml_path := path_div agent_dir agent_yaml in
      if negb (path_exists E yaml_path)
      then
        let '(processes, evs) :=
          start_each E next_pid agent_dir agent_script rest
                     crossbar_url realm address_root env in
        (processes,
         log WARNING "Agent file not found, skipping: %s" [AStr agent_yaml]
           :: evs)
      else
        let '(proc, evs1) :=
          start_agent_process E next_pid agent_script agent_yaml
                              crossbar_url realm address_root env in
        let '(processes, evs) :=
          start_each E (S next_pid) agent_dir agent_script rest
                     crossbar_url realm address_root env in
        ((agent_yaml, proc) :: processes,
         log INFO "Starting %s" [AStr agent_yaml] :: evs1 ++ evs)
  end.

(** [inl code] is [sys.exit(code)]. *)
Definition start_agents (E : Env) (agent_dir : Path) (agents : list string)
           (crossbar_url realm address_root : string)
  : (Z + list Handle) * list Event :=
  let agent_script := path_div agent_dir "agent.py" in
  if negb (path_exists E agent_script)
  then (inl EXIT_AGENT_DIR_NOT_FOUND,
        [log ERROR "agent.py not found at %s" [AStr (path_str agent_script)]])
  else
    let env := path_str (path_div (SCRIPT_DIR E) "ocs-config") in
    let '(processes, evs) :=
      start_each E 0 agent_dir agent_script agents
                 crossbar_url realm address_root env in
    (inr processes, evs).

(** ** [main], from the validation of the configured agents on *)

(** What [input("Continue anyway? [y/N] ")] does. *)
Inductive Answer :=
| Typed (response : string)
| EOFError
| KeyboardInterrupt.

(** The confirmation gate, entered when the router is not reachable:
    [Some code] is [sys.exit(code)], [None] lets the run go on. The prompt
    of [input] is not recorded; the [print()] of the [except] branch is. *)
Definition confirm (crossbar_url : string) (answer : Answer)
  : option Z * list Event :=
  let warned :=
    [ log WARNING "Cannot connect to crossbar at %s" [AStr crossbar_url];
      log WARNING "Make sure crossbar is running: docker compose up -d" [] ] in
  match answer with
  | Typed response =>
      if negb (String.eqb (PyStr.lower response) "y")
      then (Some EXIT_USER_ABORT, warned)
      else (None, warned)
  | EOFError | KeyboardInterrupt =>
      (Some EXIT_USER_ABORT, warned ++ [EPrint EmptyString])
  end.

(** How the run of the script ends. *)
Inductive RunEnd :=
| SysExit (code : Z)                (* [sys.exit(code)] *)
| MainReturned (how : MonitorEnd).  (* [monitor_processes] came back or not *)

Record Config := mkConfig {
  cfg_url : string;
  cfg_realm : string;
  cfg_address_root : string;
  cfg_agents : list string
}.

(** The external circumstances of one run. *)
Record Circumstances := mkCircumstances {
  reachable : bool;                 (* [check_crossbar_connection] *)
  answer : Answer;                  (* the operator at the gate *)
  interrupt : option Interrupt;     (* Ctrl-C during monitoring *)
  patience : nat                    (* polling cycles the model follows *)
}.

(** From [processes = start_agents(...)] to the end. *)
Definition launch_and_monitor (E : Env) (C : Circumstances) (agent_dir : Path)
           (agents : list string) (cfg : Config)
  : RunEnd * list Handle * list Event :=
  match start_agents E agent_dir agents
                     (cfg_url cfg) (cfg_realm cfg) (cfg_address_root cfg) with
  | (inl code, evs) => (SysExit code, [], evs)
  | (inr [], evs) =>
      (SysExit EXIT_NO_AGENTS, [], evs ++ [log ERROR "No agents started" []])
  | (inr processes, evs) =>
      let '(how, ps, evs') :=
        monitor_processes (patience C) (interrupt C) processes in
      (MainReturned how, ps,
       evs ++ log INFO "%d agent(s) started. Press Ctrl+C to stop."
                   [AInt (Z.of_nat (List.length processes))] :: evs')
  end.

(** From [# Check crossbar connection] to the end. *)
Definition check_and_run (E : Env) (C : Circumstances) (agent_dir : Path)
           (agents : list string) (cfg : Config)
  : RunEnd * list Handle * list Event :=
  let checking := log INFO "Checking crossbar connection..." [] in
  if negb (reachable C)
  then
    match confirm (cfg_url cfg) (answer C) with
    | (Some code, evs) => (SysExit code, [], checking :: evs)
    | (None, evs) =>
        let '(e, ps, evs') := launch_and_monitor E C agent_dir agents cfg in
        (e, ps, checking :: evs ++ evs')
    end
  else
    let '(e, ps, evs') := launch_and_monitor E C agent_dir agents cfg in
    (e, ps, checking :: log INFO "Crossbar is reachable" [] :: evs').

(** From [# Validate configured agents] to the end. *)
Definition main_configured (E : Env) (C : Circumstances)
           (config_path agent_dir : Path)
           (available_agents : list string) (cfg : Config)
  : RunEnd * list Handle * list Event :=
  let agents := cfg_agents cfg in
  let invalid_agents := filter (fun a => a ∉ available_agents) agents in
  let '(agents, evs0) :=
    match invalid_agents with
    | [] => (agents, [])
    | _ => (filter (fun a => a ∈ available_agents) agents,
            [log WARNING "Configured agents not found: %s"
                 [AList invalid_agents]])
    end in
  match agents with
  | [] => (SysExit EXIT_NO_AGENTS, [],
           evs0 ++ [log ERROR "No valid agents to start" []])
  | _ =>
      let summary :=
        [ log INFO "Config file: %s" [AStr (path_str config_path)];
          log INFO "Agent directory: %s" [AStr (path_str agent_dir)];
          log INFO "Crossbar URL: %s" [AStr (cfg_url cfg)];
          log INFO "Realm: %s" [AStr (cfg_realm cfg)];
          log INFO "Address root: %s" [AStr (cfg_address_root cfg)];
          log INFO "Agents: %d configured, %d available"
              [AInt (Z.of_nat (List.length agents));
               AInt (Z.of_nat (List.length available_agents))] ] in
      let '(e, ps, evs) := check_and_run E C agent_dir agents cfg in
      (e, ps, evs0 ++ summary ++ evs)
  end.

(** ** The head of [main]: discovery, listing and configuration *)

(** [EXCLUDED_YAML_FILES] *)
Definition EXCLUDED_YAML_FILES : gset string :=
  {[ "config.yaml"; "site-config.yaml" ]}.

(** The order of [str] under [<=]: lexicographic on the characters. *)
Definition str_le (a b : string) : Prop := String.leb a b = true.

#[global] Instance str_le_dec a b : Decision (str_le a b).
Proof. unfold str_le. apply _. Defined.

(** [sorted(l)] on a list of [str]. *)
Definition sorted (l : list string) : list string := merge_sort str_le l.

(** [str(n)] for a length. *)
Definition decimal (n : nat) : string :=
  NilEmpty.string_of_uint (Nat.to_uint n).

(** The objects [yaml.safe_load] builds, as far as the script can tell them
    apart: it tests them with [in], subscripts them with a [str], calls
    [.get] on them and takes their truth value. [PyScalar] stands for
    [None], a [bool], a number, a date or [bytes], which support none of
    the first three; [PySeq] for a [list] or a [tuple], [PySet] for a
    [set]; the items of a [PyDict] come in the order of the dictionary, no
    key twice. *)
#[warnings="-register-all"] Inductive PyVal :=
| PyScalar (truth : bool)
| PyStr (s : string)
| PySeq (items : list PyVal)
| PySet (items : list PyVal)
| PyDict (items : list (PyVal * PyVal)).

Inductive PyExn := TypeError | AttributeError | KeyError.

(** How a call ends: it returns, it calls [sys.exit], or an exception
    leaves it. *)
Inductive Outcome (A : Type) :=
| Returned (a : A)
| Exited (code : Z)
| Raised (exn : PyExn).

Arguments Returned {A} a.
Arguments Exited {A} code.
Arguments Raised {A} exn.

(** A computation of the script: its outcome, and the events up to it. *)
Definition Run (A : Type) : Type := Outcome A * list Event.

#[global] Instance Run_ret : MRet Run := fun A a => (Returned a, []).

#[global] Instance Run_bind : MBind Run := fun A B f m =>
  match m with
  | (Returned a, evs) => let '(r, evs') := f a in (r, evs ++ evs')
  | (Exited code, evs) => (Exited code, evs)
  | (Raised exn, evs) => (Raised exn, evs)
  end.

Definition emit (e : Event) : Run unit := (Returned tt, [e]).
Definition sys_exit {A} (code : Z) : Run A := (Exited code, []).
Definition raise {A} (exn : PyExn) : Run A := (Raised exn, []).

(** [v == s] for a [str] [s]: an object of another type is not equal to
    it. *)
Definition py_eq_str (s : string) (v : PyVal) : bool :=
  match v with
  | PyStr t => String.eqb t s
  | _ => false
  end.

(** [needle in hay] on two [str]: [needle] occurs in [hay]. *)
Fixpoint occurs (needle hay : string) : bool :=
  String.prefix needle hay
  || match hay with
     | EmptyString => false
     | String _ r => occurs needle r
     end.

(** [s in v] *)
Definition py_in (s : string) (v : PyVal) : Run bool :=
  match v with
  | PyDict items => mret (existsb (fun kv => py_eq_str s kv.1) items)
  | PySeq items | PySet items => mret (existsb (py_eq_str s) items)
  | PyStr t => mret (occurs s t)
  | PyScalar _ => raise TypeError
  end.

(** The value under the key [s] of a dictionary. *)
Definition lookup_str (s : string) (items : list (PyVal * PyVal))
  : option PyVal :=
  snd <$> List.find (fun kv => py_eq_str s kv.1) items.

(** [v[s]] *)
Definition py_getitem (v : PyVal) (s : string) : Run PyVal :=
  match v with
  | PyDict items =>
      match lookup_str s items with
      | Some x => mret x
      | None => raise KeyError
      end
  | _ => raise TypeError
  end.

(** [v.get(s)] *)
Definition py_get (v : PyVal) (s : string) : Run PyVal :=
  match v with
  | PyDict items => mret (default (PyScalar false) (lookup_str s items))
  | _ => raise AttributeError
  end.

(** The truth value of an object. *)
Definition py_truthy (v : PyVal) : bool :=
  match v with
  | PyScalar truth => truth
  | PyStr s => PyStr.truthy s
  | PySeq items | PySet items => negb (bool_decide (items = []))
  | PyDict items => negb (bool_decide (items = []))
  end.

(** What the head of [main] finds around it, beside [Env]: the names that
    [agent_dir.glob("*.yaml")] yields for a directory, in the order of the
    file system; the answers of [Path.resolve] and [Path.is_absolute]; and
    the object [yaml.safe_load] makes of a file, which can be read and
    parsed. *)
Record Host := mkHost {
  glob_yaml : Path -> list string;
  resolve : Path -> Path;
  is_absolute : Path -> bool;
  safe_load : Path -> PyVal
}.

Definition discover_agents (E : Env) (H : Host) (agent_dir : Path)
  : list string * list Event :=
  if negb (path_exists E agent_dir)
  then ([], [log WARNING "Agent directory does not exist: %s"
                 [AStr (path_str agent_dir)]])
  else
    let agents :=
      filter (fun name => name ∉ EXCLUDED_YAML_FILES) (glob_yaml H agent_dir) in
    (sorted agents,
     [log DEBUG "Discovered %d agent(s) in %s"
          [AInt (Z.of_nat (List.length agents)); AStr (path_str agent_dir)]]).

(** The loop [for field in required_fields] of [load_config]. *)
Fixpoint check_fields (config_path : Path) (config : PyVal)
         (fields : list string) : Run unit :=
  match fields with
  | [] => mret tt
  | field :: rest =>
      section ← py_getitem config "crossbar";
      present ← py_in field section;
      if negb present
      then
        emit (log ERROR "Missing 'crossbar.%s' in %s"
                  [AStr field; AStr (path_str config_path)]);;
        sys_exit EXIT_CONFIG_ERROR
      else check_fields config_path config rest
  end.

Definition required_fields : list string := ["url"; "realm"; "address_root"].

Definition load_config (E : Env) (H : Host) (config_path : Path) : Run PyVal :=
  if negb (path_exists E config_path)
  then
    emit (log ERROR "Config file not found: %s" [AStr (path_str config_path)]);;
    emit (log ERROR "Please create a config file. See README.md for format."
              []);;
    sys_exit EXIT_CONFIG_ERROR
  else
    emit (log DEBUG "Loading config from %s" [AStr (path_str config_path)]);;
    let config := safe_load H config_path in
    present ← py_in "crossbar" config;
    if negb present
    then
      emit (log ERROR "Missing 'crossbar' section in %s"
                [AStr (path_str config_path)]);;
      sys_exit EXIT_CONFIG_ERROR
    else
      check_fields config_path config required_fields;;
      agents ← py_get config "agents";
      if negb (py_truthy agents)
      then
        emit (log ERROR "Missing or empty 'agents' list in %s"
                  [AStr (path_str config_path)]);;
        sys_exit EXIT_CONFIG_ERROR
      else mret config.

Definition print_agent_list (agent_dir : Path) (agents : list string)
  : list Event :=
  EPrint ("Agent directory: " ++ path_str agent_dir)%string
  :: EPrint (String PyStr.LF
               ("Available mock agents (" ++ decimal (List.length agents)
                ++ "):"))%string
  :: map (fun agent => EPrint ("  - " ++ agent)%string) agents.

(** ** [main] *)

(** The namespace [parser.parse_args()] returns. *)
Record Args := mkArgs {
  arg_config : Path;
  arg_agent_dir : Path;
  arg_list_agents : bool;
  arg_log_level : Level
}.

(** How [main] ends. The rest of the run takes the three fields of the
    [crossbar] section for [str]s and [agents] for a list of [str]s; the
    model does not follow a run whose configuration holds anything else
    there. *)
Inductive MainEnd :=
| Ended (e : RunEnd)
| Uncaught (exn : PyExn)
| Unfollowed.

Definition as_str (v : PyVal) : option string :=
  match v with
  | PyStr s => Some s
  | _ => None
  end.

Definition as_str_list (v : PyVal) : option (list string) :=
  match v with
  | PySeq items => mapM as_str items
  | _ => None
  end.

(** The four reads [config["crossbar"]["url"]], ..., [config["agents"]]. *)
Definition read_settings (config : PyVal)
  : Run (PyVal * PyVal * PyVal * PyVal) :=
  crossbar ← py_getitem config "crossbar";
  crossbar_url ← py_getitem crossbar "url";
  crossbar ← py_getitem config "crossbar";
  realm ← py_getitem crossbar "realm";
  crossbar ← py_getitem config "crossbar";
  address_root ← py_getitem crossbar "address_root";
  agents ← py_getitem config "agents";
  mret (crossbar_url, realm, address_root, agents).

(** [configure_logging] sets the threshold and the format of the console
    handler; the trace holds the calls of the logger whatever the
    threshold, so it has no part in it. *)
Definition main (E : Env) (H : Host) (C : Circumstances) (args : Args)
  : MainEnd * list Handle * list Event :=
  let agent_dir := resolve H (arg_agent_dir args) in
  let config_path :=
    if negb (is_absolute H (arg_config args))
    then SCRIPT_DIR E ++ arg_config args
    else arg_config args in
  if negb (path_exists E agent_dir)
  then
    (Ended (SysExit EXIT_AGENT_DIR_NOT_FOUND), [],
     [ log ERROR "Agent directory not found: %s" [AStr (path_str agent_dir)];
       log ERROR "Make sure you're running from the dev/ directory" [] ])
  else
    let '(available_agents, evs0) := discover_agents E H agent_dir in
    if arg_list_agents args
    then
      (Ended (SysExit EXIT_SUCCESS), [],
       evs0 ++ print_agent_list agent_dir available_agents)
    else
      match (config ← load_config E H config_path; read_settings config) with
      | (Exited code, evs1) => (Ended (SysExit code), [], evs0 ++ evs1)
      | (Raised exn, evs1) => (Uncaught exn, [], evs0 ++ evs1)
      | (Returned (crossbar_url, realm, address_root, agents), evs1) =>
          match as_str crossbar_url, as_str realm, as_str address_root,
                as_str_list agents with
          | Some u, Some r, Some a, Some l =>
              let '(e, ps, evs) :=
                main_configured E C config_path agent_dir available_agents
                                (mkConfig u r a l) in
              (Ended e, ps, evs0 ++ evs1 ++ evs)
          | _, _, _, _ => (Unfollowed, [], evs0 ++ evs1)
          end
      end.

(** * Vocabulary of the properties *)

(** The child an object stands for. *)
Definition identity (p : Popen) : nat * list string * Behaviour :=
  (pid p, args p, behaviour p).

(** The handle set as a sequence of names and children. *)
Definition entries (ps : list Handle) : list (string * (nat * list string * Behaviour)) :=
  map (fun h => (h.1, identity h.2)) ps.

Definition names (ps : list Handle) : list string := map fst ps.

Definition pids (ps : list Handle) : list nat := map (fun h => pid h.2) ps.








(** What only [shutdown_agents] produces. *)
Definition from_shutdown (e : Event) : bool :=
  match e with
  | ETerminate _ _ | EWait _ _ _ _ | EKill _ _ => true
  | ELog (mkLog _ m _) =>
      String.eqb m "Shutting down %d agent(s)..."
      || String.eqb m "Terminating %s"
      || String.eqb m "%s terminated"
      || String.eqb m "%s did not terminate, killing"
      || String.eqb m "Shutdown complete"
  | _ => false
  end.

Definition quiet (evs : list Event) : Prop :=
  Forall (fun e => from_shutdown e = false) evs.


(** The loop body runs for index [i] in a pass cut after [stop] bodies. *)
Definition runs (stop : option nat) (i : nat) : Prop :=
  match stop with
  | None => True
  | Some pos => (i < pos)%nat
  end.



(** The events on child [q]. *)
Definition concerns (q : nat) (e : Event) : bool :=
  match e with
  | ESpawn r _ | EReadStdout r | ETerminate r _ | EWait r _ _ _ | EKill r _ =>
      Nat.eqb r q
  | ELog _ | EPrint _ => false
  end.

Definition is_terminate (e : Event) : bool :=
  match e with ETerminate _ _ => true | _ => false end.

Definition is_wait (e : Event) : bool :=
  match e with EWait _ _ _ _ => true | _ => false end.

Definition is_kill (e : Event) : bool :=
  match e with EKill _ _ => true | _ => false end.

(** The waits of a trace, in order: child, begin, end, and whether the wait
    ended in [TimeoutExpired]. *)
Definition wait_of (e : Event) : option (nat * N * N * bool) :=
  match e with
  | EWait q from until expired => Some (q, from, until, expired)
  | _ => None
  end.

Definition waits (evs : list Event) : list (nat * N * N * bool) :=
  omap wait_of evs.

Definition kills_of (q : nat) (evs : list Event) : nat :=
  List.length (List.filter (fun e => is_kill e && concerns q e) evs).

(** The instant at which the wait number [i] begins, read off the waits
    before it: the end of the wait number [i - 1], or [now] for the first. *)
Definition wait_begin (now : N) (ws : list (nat * N * N * bool)) (i : nat) : N :=
  match i with
  | O => now
  | S j => match ws !! j with Some (_, _, until, _) => until | None => now end
  end.

(** The child is gone at instant [t], as [wait] would find out. *)
Definition ends_by (t : N) (p : Popen) : bool :=
  match returncode p with
  | Some _ => true
  | None =>
      match death p with
      | Some (d, _) => d <=? t
      | None => false
      end
  end.

(** A handle as the first loop of [shutdown_agents] leaves it. *)
Definition after_request (now : N) (h : Handle) : Handle :=
  (terminate_if_running now h).1.

(** The child is still running when [shutdown_agents] begins. *)
Definition running (now : N) (h : Handle) : bool :=
  match (poll now h.2).1 with None => true | Some _ => false end.

(** The definition file of an agent is there. *)
Definition found (E : Env) (agent_dir : Path) (agent_yaml : string) : bool :=
  path_exists E (path_div agent_dir agent_yaml).

Definition skip_warning (agent_yaml : string) : Event :=
  log WARNING "Agent file not found, skipping: %s" [AStr agent_yaml].


(** The text made of the given lines, each ended by a line feed. *)
Definition text_of (lines : list string) : string :=
  String.concat (String PyStr.LF EmptyString) lines
  ++ String PyStr.LF EmptyString.

(** A [Popen] object just created. *)
Definition popen_of (n : nat) (b : Behaviour) : Popen :=
  mkPopen n [] b None None None false.

Module Scenario.

(** Dies of a schema error a second and a half after its start. *)
Definition crasher : Behaviour :=
  mkBehaviour (Some 1500) 1 (Some 100) (text_of ["schema error"]).

(** Runs until told to stop, and stops 200 ms after SIGTERM. *)
Definition obedient : Behaviour := mkBehaviour None 0 (Some 200) EmptyString.

(** Runs until told to stop, and takes 7 s to do so. *)
Definition slow : Behaviour := mkBehaviour None 0 (Some 7000) EmptyString.

(** Ignores SIGTERM. *)
Definition stubborn : Behaviour := mkBehaviour None 0 None EmptyString.


End Scenario.

Definition is_spawn (e : Event) : bool :=
  match e with ESpawn _ _ => true | _ => false end.

Definition with_answer (C : Circumstances) (a : Answer) : Circumstances :=
  mkCircumstances (reachable C) a (interrupt C) (patience C).

Module World.

(** A directory [agent] that holds [agent.py], [a.yaml] and [b.yaml], and
    no [c.yaml]; every agent crashes like [Scenario.crasher]. *)
Definition env : Env :=
  mkEnv (fun p => bool_decide (p ∈ [["agent"; "agent.py"];
                                    ["agent"; "a.yaml"];
                                    ["agent"; "b.yaml"]]))
        "python3" ["dev"] (fun _ _ _ => Scenario.crasher).

Definition cfg (agents : list string) : Config :=
  mkConfig "ws://localhost:8001/ws" "test_realm" "observatory" agents.

(** The router answers, nobody interrupts, five polling cycles are
    followed. *)
Definition calm_run : Circumstances := mkCircumstances true EOFError None 5.

End World.





(** ** Vocabulary of the further properties *)

(** The object is as [subprocess.Popen] leaves it until the child is found
    gone: not reaped, no signal sent. *)
Definition untouched (p : Popen) : Prop :=
  returncode p = None /\ sigterm_at p = None /\ sigkill_at p = None.

(** The child does not exit by itself at or before instant [t]. *)
Definition outlives (t : N) (p : Popen) : Prop :=
  match b_exit_at (behaviour p) with
  | Some e => t < e
  | None => True
  end.


(** The children created, as the trace tells: number and name. *)
Definition spawn_of (e : Event) : option (nat * string) :=
  match e with
  | ESpawn n name => Some (n, name)
  | _ => None
  end.

Definition spawns (evs : list Event) : list (nat * string) :=
  omap spawn_of evs.

(** The command line [start_agent_process] builds for an agent. *)
Definition command_line (E : Env) (agent_dir : Path)
           (agent_yaml crossbar_url realm address_root : string) : list string :=
  [ sys_executable E; path_str (path_div agent_dir "agent.py");
    "--site-host"; "none";
    "--site-hub"; crossbar_url;
    "--site-realm"; realm;
    "--address-root"; address_root;
    "--schema-file"; path_str (path_div agent_dir agent_yaml) ].

(** The agents [main] goes on with, after the validation against the
    available ones. *)
Definition valid_agents (available : list string) (cfg : Config) : list string :=
  filter (fun a => a ∈ available) (cfg_agents cfg).

(** A development tree: the script in [dev], its configuration
    [dev/mock-agents.yaml], and the directory [agent] with [agent.py],
    [a.yaml], [b.yaml] and a [config.yaml]; every agent crashes like
    [Scenario.crasher]. *)
Module Site.

Definition env : Env :=
  mkEnv (fun p => bool_decide (p ∈ [["agent"];
                                    ["agent"; "agent.py"];
                                    ["agent"; "a.yaml"];
                                    ["agent"; "b.yaml"];
                                    ["agent"; "config.yaml"];
                                    ["dev"; "mock-agents.yaml"]]))
        "python3" ["dev"] (fun _ _ _ => Scenario.crasher).

(** The [crossbar] section of a well-formed configuration. *)
Definition crossbar : PyVal :=
  PyDict [(PyStr "url", PyStr "ws://localhost:8001/ws");
          (PyStr "realm", PyStr "test_realm");
          (PyStr "address_root", PyStr "observatory")].

Definition document (agents : list string) : PyVal :=
  PyDict [(PyStr "crossbar", crossbar);
          (PyStr "agents", PySeq (map PyStr agents))].

(** The file system lists the directory as [listing]; paths are taken as
    they are given, and are relative. *)
Definition host (listing : list string) (doc : PyVal) : Host :=
  mkHost (fun _ => listing) (fun p => p) (fun _ => false) (fun _ => doc).

Definition args (list_agents : bool) : Args :=
  mkArgs ["mock-agents.yaml"] ["agent"] list_agents INFO.

End Site.

(** The two paths [main] works with. *)
Definition agent_dir_of (H : Host) (args : Args) : Path :=
  resolve H (arg_agent_dir args).



(** The record that closes a natural end of the monitor. *)
Definition all_exited_record : Event := log INFO "All agents have exited" [].

(** * Properties *)

(** ** What stays fixed in a [Popen] object *)

Section PopenFacts.

Implicit Types (p : Popen) (now : N).

Lemma poll_identity now p : identity (poll now p).2 = identity p.
Proof.
  unfold poll. destruct (returncode p); [done|].
  destruct (death p) as [[d c]|]; [|done].
  by destruct (d <=? now).
Qed.

Lemma earliest_le l e c :
  In (e, c) l -> exists d c', earliest l = Some (d, c') /\ d <= e.
Proof.
  induction l as [|[x cx] r IH]; simpl; [done|].
  intros [Heq|Hin].
  - simplify_eq. destruct (earliest r) as [[y cy]|]; simpl.
    + destruct (N.leb_spec e y); eexists _, _; (split; [done|lia]).
    + eexists _, _; (split; [done|lia]).
  - destruct (IH Hin) as (d & c' & Hd & Hle). rewrite Hd. simpl.
    destruct (N.leb_spec x d); eexists _, _; (split; [done|lia]).
Qed.



Lemma stdout_read_identity p : identity (stdout_read p).2 = identity p.
Proof. unfold stdout_read. by destruct (drained p). Qed.

Lemma handle_dead_agent_identity name p :
  identity (handle_dead_agent name p).2 = identity p.
Proof.
  unfold handle_dead_agent.
  pose proof (stdout_read_identity p) as H.
  destruct (stdout_read p) as [o p1]. simpl in H.
  by destruct (PyStr.truthy o).
Qed.

Lemma terminate_identity now p : identity (terminate now p) = identity p.
Proof.
  unfold terminate. pose proof (poll_identity now p) as H.
  destruct (poll now p) as [[c|] p1]; simpl in H; [done|].
  by destruct (sigterm_at p1).
Qed.

Lemma kill_identity now p : identity (kill now p) = identity p.
Proof.
  unfold kill. pose proof (poll_identity now p) as H.
  destruct (poll now p) as [[c|] p1]; simpl in H; [done|].
  by destruct (sigkill_at p1).
Qed.

Lemma wait_identity now timeout p :
  match wait now timeout p with
  | inl (_, p') | inr (_, p') => identity p' = identity p
  end.
Proof.
  unfold wait. destruct (returncode p); [done|].
  destruct (death p) as [[d c]|]; [|done].
  by destruct (d <=? now + timeout).
Qed.

End PopenFacts.

(** ** Reading the trace *)









Lemma quiet_lines name output : quiet (output_lines name output).
Proof.
  unfold output_lines, quiet.
  induction (PyStr.split PyStr.LF (PyStr.strip output)) as [|l ls IH];
    simpl; constructor; done.
Qed.

Lemma quiet_handle_dead_agent name p : quiet (handle_dead_agent name p).1.
Proof.
  unfold handle_dead_agent. destruct (stdout_read p) as [o p1].
  destruct (PyStr.truthy o); simpl.
  - repeat (constructor; [done|]). apply quiet_lines.
  - by repeat constructor.
Qed.

Lemma quiet_app evs evs' : quiet evs -> quiet evs' -> quiet (evs ++ evs').
Proof. unfold quiet. rewrite Forall_app. done. Qed.

(** ** One polling pass *)

Section ScanFacts.

Variable now : N.

Implicit Types (ps : list Handle) (stop : option nat)
         (rep : gset string) (alive : nat).

(** The pattern every proof about [scan] follows: one case per branch of
    the loop body. *)
Ltac scan_cases ps IH :=
  induction ps as [|[name proc] rest IH]; intros stop rep alive; simpl;
  [|destruct stop as [[|pos]|]; simpl;
    [|destruct (poll now proc) as [[c|] proc1] eqn:Hpoll; simpl;
       [destruct (decide (name ∈ rep)); simpl;
         [|destruct (handle_dead_agent name proc1) as [evs proc2] eqn:Hhda;
           simpl]|]..]].

Lemma scan_entries ps stop rep alive :
  entries (sc_procs (scan now stop ps rep alive)) = entries ps.
Proof.
  revert stop rep alive. scan_cases ps IH; try done;
    rewrite IH; f_equal; f_equal;
    pose proof (poll_identity now proc) as H; rewrite Hpoll in H; simpl in H;
    try done;
    pose proof (handle_dead_agent_identity name proc1) as H';
    rewrite Hhda in H'; simpl in H'; congruence.
Qed.



Lemma scan_quiet ps stop rep alive :
  quiet (sc_events (scan now stop ps rep alive)).
Proof.
  revert stop rep alive. scan_cases ps IH; try (by constructor); try apply IH;
    apply quiet_app; try apply IH;
    pose proof (quiet_handle_dead_agent name proc1) as H;
    by rewrite Hhda in H.
Qed.

Lemma scan_not_raised ps rep alive :
  sc_raised (scan now None ps rep alive) = false.
Proof.
  revert rep alive.
  induction ps as [|[name proc] rest IH]; intros rep alive; simpl; [done|].
  destruct (poll now proc) as [[c|] proc1]; simpl; [|apply IH].
  destruct (decide (name ∈ rep)); simpl; [apply IH|].
  destruct (handle_dead_agent name proc1). simpl. apply IH.
Qed.

Lemma scan_alive_ge ps stop rep alive :
  (alive <= sc_alive (scan now stop ps rep alive))%nat.
Proof.
  revert stop rep alive. scan_cases ps IH; try done; try apply IH;
    match goal with
    | |- (_ <= sc_alive (scan now ?s _ ?r ?a))%nat =>
        pose proof (IH s r a); lia
    end.
Qed.







End ScanFacts.

(** ** The monitor loop *)

Lemma entries_names ps ps' : entries ps' = entries ps -> names ps' = names ps.
Proof.
  intros H. apply (f_equal (map fst)) in H. unfold entries, names in *.
  by rewrite !map_map in H.
Qed.

Lemma entries_pids ps ps' : entries ps' = entries ps -> pids ps' = pids ps.
Proof.
  intros H. apply (f_equal (map (fun e => e.2.1.1))) in H.
  unfold entries, pids in *. by rewrite !map_map in H.
Qed.



Section MonitorFacts.

Variable intr : option Interrupt.

Implicit Types (fuel cycle : nat) (ps : list Handle) (rep : gset string).

(** One case per way out of a turn of the [while True] loop. *)
Ltac loop_cases fuel IH :=
  induction fuel as [|fuel IH]; intros cycle ps rep;
  [| cbn [monitor_loop]; cbv zeta;
     destruct (sc_raised (scan (cycle_time cycle) (stop_in intr cycle) ps rep 0))
       eqn:Hraised;
     [| destruct (decide
          (sc_alive (scan (cycle_time cycle) (stop_in intr cycle) ps rep 0)
           = 0%nat)) as [Hnone|Hsome];
        [| destruct (sleep_cut intr cycle) as [d|] eqn:Hcut ] ] ].

Lemma monitor_loop_entries fuel cycle ps rep :
  entries (m_procs (monitor_loop fuel intr cycle ps rep)) = entries ps.
Proof.
  revert cycle ps rep. loop_cases fuel IH; simpl;
    rewrite ?IH; try done; apply scan_entries.
Qed.




Lemma monitor_loop_quiet fuel cycle ps rep :
  quiet (m_events (monitor_loop fuel intr cycle ps rep)).
Proof.
  revert cycle ps rep. loop_cases fuel IH; simpl; try (by constructor);
    try apply scan_quiet.
  - apply quiet_app; [apply scan_quiet|by repeat constructor].
  - apply quiet_app; [apply scan_quiet|apply IH].
Qed.




End MonitorFacts.

(** ** Shutdown *)

Section ShutdownFacts.

Implicit Types (now t : N) (ps : list Handle) (h : Handle) (q : nat).

Lemma ends_by_mono t t' p : t <= t' -> ends_by t p = true -> ends_by t' p = true.
Proof.
  unfold ends_by. destruct (returncode p); [done|].
  destruct (death p) as [[d c]|]; [|done].
  rewrite !N.leb_le. lia.
Qed.

Lemma wait_spec now timeout p :
  match wait now timeout p with
  | inl (t, p') => ends_by (now + timeout) p = true /\ now <= t <= now + timeout
  | inr (t, p') => ends_by (now + timeout) p = false /\ t = now + timeout /\ p' = p
  end.
Proof.
  unfold wait, ends_by. destruct (returncode p); [split; [done|lia]|].
  destruct (death p) as [[d c]|]; [|done].
  destruct (N.leb_spec d (now + timeout)); [split; [done|lia]|done].
Qed.

Lemma terminate_if_running_entry now h :
  (after_request now h).1 = h.1 /\
  identity (after_request now h).2 = identity h.2.
Proof.
  unfold after_request, terminate_if_running. destruct h as [name p]. simpl.
  pose proof (poll_identity now p) as Hid.
  destruct (poll now p) as [[c|] p1]; simpl in *; [done|].
  by rewrite terminate_identity.
Qed.

(** The first loop sends one request to each running child and does
    nothing else. *)
Lemma terminate_if_running_events now h :
  (terminate_if_running now h).2 =
  if running now h
  then [log DEBUG "Terminating %s" [AStr h.1]; ETerminate (pid h.2) now]
  else [].
Proof.
  unfold running, terminate_if_running. destruct h as [name p]. simpl.
  pose proof (poll_identity now p) as Hid.
  destruct (poll now p) as [[c|] p1]; simpl in *; [done|].
  unfold identity in Hid. by replace (pid p1) with (pid p) by congruence.
Qed.

Lemma send_terminate_procs now ps :
  (send_terminate now ps).1 = map (after_request now) ps.
Proof.
  induction ps as [|h rest IH]; simpl; [done|].
  unfold after_request at 1.
  destruct (terminate_if_running now h) as [h' evs].
  destruct (send_terminate now rest) as [rest' evs']. simpl in *.
  by rewrite IH.
Qed.

Lemma send_terminate_events now ps :
  (send_terminate now ps).2 =
  flat_map (fun h => (terminate_if_running now h).2) ps.
Proof.
  induction ps as [|h rest IH]; simpl; [done|].
  destruct (terminate_if_running now h) as [h' evs].
  destruct (send_terminate now rest) as [rest' evs']. simpl in *.
  by rewrite IH.
Qed.

Lemma send_terminate_entries now ps :
  entries (send_terminate now ps).1 = entries ps.
Proof.
  rewrite send_terminate_procs. unfold entries. rewrite map_map.
  apply map_ext. intros h.
  destruct (terminate_if_running_entry now h) as [-> ->]. done.
Qed.

(** What the second loop does for one handle, begun at [now]. *)
Lemma wait_or_kill_spec now name p :
  let r := wait_or_kill now (name, p) in
  let expired := negb (ends_by (now + PROCESS_TERMINATE_TIMEOUT) p) in
  r.2 = [EWait (pid p) now r.1.1 expired;
         if expired
         then log WARNING "%s did not terminate, killing" [AStr name]
         else log DEBUG "%s terminated" [AStr name]]
        ++ (if expired then [EKill (pid p) r.1.1] else [])
  /\ now <= r.1.1 <= now + PROCESS_TERMINATE_TIMEOUT
  /\ (expired = true -> r.1.1 = now + PROCESS_TERMINATE_TIMEOUT)
  /\ r.1.2.1 = name
  /\ identity r.1.2.2 = identity p.
Proof.
  unfold wait_or_kill. simpl.
  pose proof (wait_spec now PROCESS_TERMINATE_TIMEOUT p) as Hw.
  pose proof (wait_identity now PROCESS_TERMINATE_TIMEOUT p) as Hid.
  destruct (wait now PROCESS_TERMINATE_TIMEOUT p) as [[t p1]|[t p1]]; simpl.
  - destruct Hw as [-> Ht]. simpl. repeat split; try done; lia.
  - destruct Hw as (-> & -> & ->). simpl.
    rewrite kill_identity. repeat split; try done; lia.
Qed.

Lemma await_all_entries now ps : entries (await_all now ps).1.2 = entries ps.
Proof.
  revert now.
  induction ps as [|[name p] rest IH]; intros now; cbn [await_all]; [done|].
  destruct (wait_or_kill_spec now name p) as (_ & _ & _ & Hn & Hid).
  destruct (wait_or_kill now (name, p)) as [[t h'] evs].
  specialize (IH t). destruct (await_all t rest) as [[tend rest'] evs'].
  unfold entries in *. simpl in *. by rewrite IH, Hn, Hid.
Qed.

Lemma await_all_cons now h rest :
  await_all now (h :: rest) =
  let r := wait_or_kill now h in
  let r' := await_all r.1.1 rest in
  (r'.1.1, r.1.2 :: r'.1.2, r.2 ++ r'.2).
Proof.
  cbn [await_all]. destruct (wait_or_kill now h) as [[t h'] evs].
  simpl. by destruct (await_all t rest) as [[tend rest'] evs'].
Qed.

Lemma waits_app evs evs' : waits (evs ++ evs') = waits evs ++ waits evs'.
Proof. apply omap_app. Qed.

Lemma waits_wait_or_kill now name p :
  waits (wait_or_kill now (name, p)).2 =
  [(pid p, now, (wait_or_kill now (name, p)).1.1,
    negb (ends_by (now + PROCESS_TERMINATE_TIMEOUT) p))].
Proof.
  destruct (wait_or_kill_spec now name p) as (-> & _).
  by destruct (negb _).
Qed.

Lemma await_all_no_terminate now ps :
  Forall (fun e => is_terminate e = false) (await_all now ps).2.
Proof.
  revert now. induction ps as [|[name p] rest IH]; intros now.
  - by constructor.
  - rewrite await_all_cons; cbv zeta; cbn [fst snd]. apply Forall_app. split; [|apply IH].
    destruct (wait_or_kill_spec now name p) as (-> & _).
    destruct (negb _); by repeat constructor.
Qed.


(** One wait per handle, in the order of the list. *)
Lemma await_all_wait_pids now ps :
  map (fun w => w.1.1.1) (waits (await_all now ps).2) = pids ps.
Proof.
  revert now. induction ps as [|[name p] rest IH]; intros now; [done|].
  rewrite await_all_cons; cbv zeta; cbn [fst snd].
  rewrite waits_app, waits_wait_or_kill. simpl. by rewrite IH.
Qed.

(** The wait on the handle at index [i]: when it begins, how long it
    lasts, and when it ends in a kill. *)
Lemma await_all_waits now ps i q from until expired :
  waits (await_all now ps).2 !! i = Some (q, from, until, expired) ->
  exists name p,
    ps !! i = Some (name, p) /\ q = pid p
    /\ from = wait_begin now (waits (await_all now ps).2) i
    /\ now <= from <= now + N.of_nat i * PROCESS_TERMINATE_TIMEOUT
    /\ from <= until <= from + PROCESS_TERMINATE_TIMEOUT
    /\ expired = negb (ends_by (from + PROCESS_TERMINATE_TIMEOUT) p)
    /\ (expired = true ->
        until = from + PROCESS_TERMINATE_TIMEOUT
        /\ EKill q until ∈ (await_all now ps).2).
Proof.
  revert now i. induction ps as [|[name p] rest IH]; intros now i; [done|].
  rewrite await_all_cons; cbv zeta; cbn [fst snd].
  rewrite waits_app, waits_wait_or_kill.
  destruct (wait_or_kill_spec now name p) as (Hevs & Ht & Hexp & _).
  rewrite Hevs. clear Hevs.
  set (t := (wait_or_kill now (name, p)).1.1) in *.
  destruct i as [|j]; simpl.
  - intros [= <- <- <- <-]. exists name, p.
    repeat split; try done; try lia.
    + apply Hexp. done.
    + rewrite H. do 2 apply list_elem_of_further. apply list_elem_of_here.
  - intros Hj.
    destruct (IH t j Hj) as (name' & p' & Hl & -> & Hfrom & Hb & Hu & Hx & Hk).
    exists name', p'. repeat split; try done; try lia.
    + rewrite Hfrom. destruct j as [|j']; simpl; [done|].
      apply lookup_lt_Some in Hj. 
      destruct (waits (await_all t rest).2 !! j') as [[[[? ?] ?] ?]|] eqn:Hj';
        [done|].
      apply lookup_ge_None in Hj'. lia.
    + by apply Hk.
    + do 2 apply list_elem_of_further. apply elem_of_app. right. by apply Hk.
Qed.

(** The second loop does nothing about a child that is not in the list. *)
Lemma await_all_unconcerned now ps q :
  q ∉ pids ps -> List.filter (concerns q) (await_all now ps).2 = [].
Proof.
  revert now. induction ps as [|[name p] rest IH]; intros now Hq; [done|].
  rewrite await_all_cons; cbv zeta; cbn [fst snd]. rewrite List.filter_app.
  unfold pids in Hq. simpl in Hq. apply not_elem_of_cons in Hq as [Hne Hq].
  rewrite IH by done.
  destruct (wait_or_kill_spec now name p) as (-> & _).
  assert (Nat.eqb (pid p) q = false) as Hneq by (apply Nat.eqb_neq; congruence).
  destruct (negb _); simpl; rewrite Hneq; done.
Qed.

(** About a child that is in the list once, the second loop does what its
    body does for it, at the instant its turn comes. *)
Lemma await_all_about now ps i name p :
  NoDup (pids ps) ->
  ps !! i = Some (name, p) ->
  exists from,
    now <= from <= now + N.of_nat i * PROCESS_TERMINATE_TIMEOUT
    /\ List.filter (concerns (pid p)) (await_all now ps).2
       = List.filter (concerns (pid p)) (wait_or_kill from (name, p)).2.
Proof.
  revert now i. induction ps as [|[name' p'] rest IH]; intros now i; [done|].
  intros Hnd Hi. unfold pids in Hnd. simpl in Hnd.
  apply NoDup_cons in Hnd as [Hfresh Hnodup].
  rewrite await_all_cons; cbv zeta; cbn [fst snd]. rewrite List.filter_app.
  destruct (wait_or_kill_spec now name' p') as (Hevs & Ht & _).
  destruct i as [|j]; simpl in Hi.
  - simplify_eq. exists now. split; [lia|].
    rewrite await_all_unconcerned by done. by rewrite app_nil_r.
  - destruct (IH (wait_or_kill now (name', p')).1.1 j Hnodup Hi)
      as (from & Hfrom & ->).
    exists from. split; [lia|].
    assert (Nat.eqb (pid p') (pid p) = false) as Hneq.
    { apply Nat.eqb_neq. intros Heq. apply Hfresh. rewrite Heq.
      apply list_elem_of_fmap. exists (name, p). split; [done|].
      by eapply list_elem_of_lookup_2. }
    rewrite Hevs. destruct (negb _); simpl; rewrite Hneq; done.
Qed.

End ShutdownFacts.

(** ** [shutdown_agents] and [monitor_processes] as wholes *)

Lemma shutdown_agents_events now ps :
  (shutdown_agents now ps).2 =
  log INFO "Shutting down %d agent(s)..." [AInt (Z.of_nat (List.length ps))]
    :: (send_terminate now ps).2
    ++ (await_all now (send_terminate now ps).1).2
    ++ [log INFO "Shutdown complete" []].
Proof.
  unfold shutdown_agents. destruct (send_terminate now ps) as [ps1 evs1].
  simpl. by destruct (await_all now ps1) as [[tend ps2] evs2].
Qed.

Lemma shutdown_agents_procs now ps :
  (shutdown_agents now ps).1.2 = (await_all now (send_terminate now ps).1).1.2.
Proof.
  unfold shutdown_agents. destruct (send_terminate now ps) as [ps1 evs1].
  simpl. by destruct (await_all now ps1) as [[tend ps2] evs2].
Qed.

Lemma shutdown_agents_entries now ps :
  entries (shutdown_agents now ps).1.2 = entries ps.
Proof.
  by rewrite shutdown_agents_procs, await_all_entries, send_terminate_entries.
Qed.



Lemma monitor_processes_events fuel intr ps :
  let r := monitor_loop fuel intr 0 ps ∅ in
  (monitor_processes fuel intr ps).2 =
  match m_exit r with
  | Interrupted t =>
      m_events r ++ log INFO "Received interrupt signal" []
        :: (shutdown_agents t (m_procs r)).2
  | _ => m_events r
  end.
Proof.
  unfold monitor_processes. simpl.
  destruct (m_exit (monitor_loop fuel intr 0 ps ∅)) as [|t|]; try done.
  by destruct (shutdown_agents t _) as [[tend ps'] evs].
Qed.

Lemma monitor_processes_end fuel intr ps :
  (monitor_processes fuel intr ps).1.1 = Natural <->
  m_exit (monitor_loop fuel intr 0 ps ∅) = Broke.
Proof.
  unfold monitor_processes. simpl.
  destruct (m_exit (monitor_loop fuel intr 0 ps ∅)) as [|t|]; try done.
  by destruct (shutdown_agents t _) as [[tend ps'] evs].
Qed.

Lemma monitor_processes_entries fuel intr ps :
  entries (monitor_processes fuel intr ps).1.2 = entries ps.
Proof.
  unfold monitor_processes. simpl.
  pose proof (monitor_loop_entries intr fuel 0 ps ∅) as H.
  destruct (m_exit (monitor_loop fuel intr 0 ps ∅)) as [|t|]; try done.
  pose proof (shutdown_agents_entries t (m_procs (monitor_loop fuel intr 0 ps ∅)))
    as H'.
  destruct (shutdown_agents t _) as [[tend ps'] evs]. simpl in *. congruence.
Qed.




(** ** The launcher *)

Section LauncherFacts.

Variables (E : Env) (agent_dir agent_script : Path)
          (crossbar_url realm address_root env : string).

Local Abbreviation start_each' n agents :=
  (start_each E n agent_dir agent_script agents
              crossbar_url realm address_root env).

Lemma start_each_cons n agent_yaml rest :
  start_each' n (agent_yaml :: rest) =
  if found E agent_dir agent_yaml
  then
    let r := start_agent_process E n agent_script agent_yaml
                                 crossbar_url realm address_root env in
    let r' := start_each' (S n) rest in
    ((agent_yaml, r.1) :: r'.1,
     log INFO "Starting %s" [AStr agent_yaml] :: r.2 ++ r'.2)
  else
    let r' := start_each' n rest in
    (r'.1, skip_warning agent_yaml :: r'.2).
Proof.
  cbn [start_each]. fold (found E agent_dir agent_yaml).
  destruct (found E agent_dir agent_yaml); simpl.
  - by destruct (start_each' (S n) rest).
  - by destruct (start_each' n rest).
Qed.

(** One handle per identifier whose file is there, in the order of the
    configuration. *)
Lemma start_each_names n agents :
  names (start_each' n agents).1 = List.filter (found E agent_dir) agents.
Proof.
  revert n. induction agents as [|a rest IH]; intros n; [done|].
  rewrite start_each_cons. simpl.
  destruct (found E agent_dir a); simpl; by rewrite IH.
Qed.

(** The children are numbered in the order of their creation. *)
Lemma start_each_pids n agents :
  pids (start_each' n agents).1 =
  seq n (List.length (start_each' n agents).1).
Proof.
  revert n. induction agents as [|a rest IH]; intros n; [done|].
  rewrite start_each_cons.
  destruct (found E agent_dir a); cbv zeta; cbn [fst snd]; [|apply IH].
  unfold pids in *. simpl. by rewrite IH.
Qed.



End LauncherFacts.

(** ** The two phases of [shutdown_agents] *)

Lemma send_terminate_cons now h rest :
  (send_terminate now (h :: rest)).2 =
  (if running now h
   then [log DEBUG "Terminating %s" [AStr h.1]; ETerminate (pid h.2) now]
   else [])
  ++ (send_terminate now rest).2.
Proof.
  rewrite !send_terminate_events. simpl.
  by rewrite terminate_if_running_events.
Qed.

Lemma send_terminate_no_wait now ps :
  Forall (fun e => is_wait e = false /\ is_kill e = false)
         (send_terminate now ps).2.
Proof.
  induction ps as [|h rest IH]; [by constructor|].
  rewrite send_terminate_cons. apply Forall_app. split; [|done].
  destruct (running now h); by repeat constructor.
Qed.

Lemma send_terminate_requests now ps :
  List.filter is_terminate (send_terminate now ps).2 =
  map (fun h => ETerminate (pid h.2) now) (List.filter (running now) ps).
Proof.
  induction ps as [|h rest IH]; [done|].
  rewrite send_terminate_cons, List.filter_app, IH. simpl.
  by destruct (running now h).
Qed.

Lemma send_terminate_waits now ps : waits (send_terminate now ps).2 = [].
Proof.
  induction ps as [|h rest IH]; [done|].
  rewrite send_terminate_cons, waits_app, IH.
  by destruct (running now h).
Qed.

Lemma send_terminate_instant now ps q t :
  ETerminate q t ∈ (send_terminate now ps).2 -> t = now.
Proof.
  induction ps as [|h rest IH]; [by intros ?%elem_of_nil|].
  rewrite send_terminate_cons, elem_of_app. intros [Hin|Hin]; [|by apply IH].
  destruct (running now h); [|by apply elem_of_nil in Hin].
  repeat (apply elem_of_cons in Hin as [Hin|Hin]; [by simplify_eq|]).
  by apply elem_of_nil in Hin.
Qed.

Lemma send_terminate_unconcerned now ps q :
  q ∉ pids ps -> List.filter (concerns q) (send_terminate now ps).2 = [].
Proof.
  induction ps as [|h rest IH]; intros Hq; [done|].
  unfold pids in Hq. simpl in Hq. apply not_elem_of_cons in Hq as [Hne Hq].
  rewrite send_terminate_cons, List.filter_app, IH by done.
  assert (Nat.eqb (pid h.2) q = false) as Hneq by (apply Nat.eqb_neq; congruence).
  destruct (running now h); simpl; rewrite ?Hneq; done.
Qed.

(** About a child that is in the list once, the first loop sends at most
    its own request. *)
Lemma send_terminate_about now ps i h :
  NoDup (pids ps) ->
  ps !! i = Some h ->
  List.filter (concerns (pid h.2)) (send_terminate now ps).2 =
  if running now h then [ETerminate (pid h.2) now] else [].
Proof.
  revert i. induction ps as [|h' rest IH]; intros i Hnd Hi; [done|].
  unfold pids in Hnd. simpl in Hnd. apply NoDup_cons in Hnd as [Hfresh Hnodup].
  rewrite send_terminate_cons, List.filter_app.
  destruct i as [|j]; simpl in Hi.
  - simplify_eq. rewrite send_terminate_unconcerned by done.
    destruct (running now h); simpl; rewrite ?Nat.eqb_refl; done.
  - rewrite (IH j) by done.
    assert (Nat.eqb (pid h'.2) (pid h.2) = false) as Hneq.
    { apply Nat.eqb_neq. intros Heq. apply Hfresh. rewrite Heq.
      apply list_elem_of_fmap. exists h. split; [done|].
      by eapply list_elem_of_lookup_2. }
    destruct (running now h'); simpl; rewrite ?Hneq; done.
Qed.

Lemma waits_shutdown_agents now ps :
  waits (shutdown_agents now ps).2 =
  waits (await_all now (send_terminate now ps).1).2.
Proof.
  rewrite shutdown_agents_events.
  change (waits (?e :: ?l)) with (waits [e] ++ waits l).
  rewrite !waits_app, send_terminate_waits. simpl. by rewrite app_nil_r.
Qed.

Lemma send_terminate_lookup now ps i h :
  ps !! i = Some h ->
  (send_terminate now ps).1 !! i = Some (after_request now h).
Proof.
  rewrite send_terminate_procs. intros Hi.
  change (map (after_request now) ps) with (after_request now <$> ps).
  rewrite list_lookup_fmap.
  by destruct (ps !! i) as [y|]; simplify_eq/=.
Qed.

Lemma filter_and {A} (f g : A -> bool) (l : list A) :
  List.filter (fun x => f x && g x) l = List.filter f (List.filter g l).
Proof.
  induction l as [|x l IH]; [done|]. simpl.
  destruct (g x) eqn:Hg, (f x) eqn:Hf; simpl; by rewrite ?Hf, ?IH.
Qed.

(** ** What [start_agents] returns *)

Lemma start_agents_inr E agent_dir agents url realm root processes evs :
  start_agents E agent_dir agents url realm root = (inr processes, evs) ->
  (processes, evs) =
  start_each E 0 agent_dir (path_div agent_dir "agent.py") agents url realm root
             (path_str (path_div (SCRIPT_DIR E) "ocs-config")).
Proof.
  unfold start_agents. destruct (negb _); [done|].
  cbv zeta.
  destruct (start_each _ _ _ _ _ _ _ _ _) as [ps evs']. by intros [= -> ->].
Qed.

(** ** Stripping and splitting *)

Section StringFacts.

Implicit Types (s : string) (c : ascii).













End StringFacts.

(** * The claims *)




(** C2: the trace of [shutdown_agents] is its opening record, then a part
    that holds every terminate request and no wait or kill, then a part
    that holds every wait and kill and no terminate request, then its
    closing record. The requests go, in list order, to exactly the handles
    still running when shutdown begins; the waits are one per handle. *)
Theorem shutdown_requests_precede_waits now ps :
  exists sent awaited,
    (shutdown_agents now ps).2 =
      log INFO "Shutting down %d agent(s)..." [AInt (Z.of_nat (List.length ps))]
        :: sent ++ awaited ++ [log INFO "Shutdown complete" []]
    /\ Forall (fun e => is_wait e = false /\ is_kill e = false) sent
    /\ Forall (fun e => is_terminate e = false) awaited
    /\ List.filter is_terminate sent
       = map (fun h => ETerminate (pid h.2) now) (List.filter (running now) ps)
    /\ map (fun w => w.1.1.1) (waits awaited) = pids ps.
Proof.
  exists (send_terminate now ps).2, (await_all now (send_terminate now ps).1).2.
  split; [apply shutdown_agents_events|].
  split; [apply send_terminate_no_wait|].
  split; [apply await_all_no_terminate|].
  split; [apply send_terminate_requests|].
  rewrite await_all_wait_pids. apply entries_pids, send_terminate_entries.
Qed.

(** C3, as stated, fails: two agents ignore SIGTERM; both requests go out
    at instant 0; the second agent is only killed at 10 s, once the wait on
    the first one has used up its own 5 s. *)
Lemma second_handle_escalated_after_two_grace_periods :
  let ps := [("a.yaml", popen_of 0 Scenario.stubborn);
             ("b.yaml", popen_of 1 Scenario.stubborn)] in
  List.filter (concerns 1) (shutdown_agents 0 ps).2
  = [ETerminate 1 0; EWait 1 5000 10000 true; EKill 1 10000]
  /\ 10000 - 0 <> PROCESS_TERMINATE_TIMEOUT.
Proof. by vm_compute. Qed.

(** C3 (amended): the waits are taken one handle after the other. The wait
    on the handle at index [i] begins when the wait on the handle before it
    is over (when shutdown begins, for the first), lasts at most the grace
    period from then, and ends in [TimeoutExpired] exactly when the child is
    not gone one grace period after that beginning; the kill follows at
    once. All requests having been sent when shutdown began, escalation
    comes between one and [i + 1] grace periods after the request. *)
Theorem wait_window_starts_at_own_turn now ps i q from until expired :
  waits (shutdown_agents now ps).2 !! i = Some (q, from, until, expired) ->
  exists name p,
    ps !! i = Some (name, p) /\ q = pid p
    /\ from = wait_begin now (waits (shutdown_agents now ps).2) i
    /\ now <= from <= now + N.of_nat i * PROCESS_TERMINATE_TIMEOUT
    /\ from <= until <= from + PROCESS_TERMINATE_TIMEOUT
    /\ expired = negb (ends_by (from + PROCESS_TERMINATE_TIMEOUT)
                               (after_request now (name, p)).2)
    /\ (expired = true ->
        until = from + PROCESS_TERMINATE_TIMEOUT
        /\ EKill q until ∈ (shutdown_agents now ps).2)
    /\ (forall t, ETerminate q t ∈ (shutdown_agents now ps).2 -> t = now).
Proof.
  rewrite waits_shutdown_agents. intros Hw.
  destruct (await_all_waits _ _ _ _ _ _ _ Hw)
    as (name & p1 & Hi & -> & Hfrom & Hb & Hu & Hx & Hk).
  assert (exists p, ps !! i = Some (name, p)
                    /\ after_request now (name, p) = (name, p1))
    as (p & Hp & Hreq).
  { destruct (ps !! i) as [[name0 p0]|] eqn:Hps.
    - pose proof (eq_trans (eq_sym Hi) (send_terminate_lookup now ps i _ Hps))
        as Heq.
      destruct (terminate_if_running_entry now (name0, p0)) as [Hn _].
      injection Heq as Heq. rewrite <- Heq in Hn. simpl in Hn. subst name0.
      exists p0. by rewrite <- Heq.
    - apply lookup_ge_None in Hps.
      assert (i < List.length (send_terminate now ps).1)%nat as Hlt
        by (by eapply lookup_lt_Some).
      rewrite send_terminate_procs, List.length_map in Hlt.
      destruct (Nat.lt_irrefl _ (Nat.lt_le_trans _ _ _ Hlt Hps)). }
  destruct (terminate_if_running_entry now (name, p)) as [_ Hid].
  rewrite Hreq in Hid. simpl in Hid.
  exists name, p. split; [done|]. split; [unfold identity in Hid; congruence|].
  split; [done|]. split; [done|]. split; [done|].
  split; [by rewrite Hreq|]. split.
  - intros Hexp. destruct (Hk Hexp) as [-> Hkill]. split; [done|].
    rewrite shutdown_agents_events. apply list_elem_of_further.
    apply elem_of_app. right. apply elem_of_app. by left.
  - intros t. rewrite shutdown_agents_events.
    rewrite elem_of_cons, !elem_of_app. intros [?|[Hin|[Hin|Hin]]]; [done|..].
    + by eapply send_terminate_instant.
    + pose proof (await_all_no_terminate now (send_terminate now ps).1) as Hno.
      rewrite Forall_forall in Hno. by apply Hno in Hin.
    + apply elem_of_cons in Hin as [?|Hin]; [done|by apply elem_of_nil in Hin].
Qed.

Lemma wait_window_starts_at_own_turn_witness :
  let ps := [("a.yaml", popen_of 0 Scenario.stubborn);
             ("b.yaml", popen_of 1 Scenario.stubborn)] in
  waits (shutdown_agents 0 ps).2 !! 1%nat = Some (1%nat, 5000, 10000, true)
  /\ exists name p,
       ps !! 1%nat = Some (name, p)
       /\ 5000 = wait_begin 0 (waits (shutdown_agents 0 ps).2) 1
       /\ 10000 = 5000 + PROCESS_TERMINATE_TIMEOUT.
Proof.
  cbv zeta.
  assert (waits (shutdown_agents 0
                   [("a.yaml", popen_of 0 Scenario.stubborn);
                    ("b.yaml", popen_of 1 Scenario.stubborn)]).2 !! 1%nat
          = Some (1%nat, 5000, 10000, true)) as Hw by (by vm_compute).
  split; [exact Hw|].
  destruct (wait_window_starts_at_own_turn 0 _ 1 1 5000 10000 true Hw)
    as (name & p & Hi & _ & Hfrom & _ & _ & _ & Hexp & _).
  exists name, p. split; [exact Hi|]. split; [exact Hfrom|].
  by destruct (Hexp eq_refl).
Defined.

(** C4, as stated, fails: the first agent ignores SIGTERM, the second one
    needs 7 s to stop. The second one has not exited one grace period after
    its request, and yet it is never killed: its own wait only begins at
    5 s and finds it gone at 7 s. *)
Lemma late_exit_escapes_the_kill :
  let ps := [("a.yaml", popen_of 0 Scenario.stubborn);
             ("b.yaml", popen_of 1 Scenario.slow)] in
  List.filter (concerns 1) (shutdown_agents 0 ps).2
  = [ETerminate 1 0; EWait 1 5000 7000 false]
  /\ ends_by (0 + PROCESS_TERMINATE_TIMEOUT)
             (after_request 0 ("b.yaml", popen_of 1 Scenario.slow)).2 = false
  /\ kills_of 1 (shutdown_agents 0 ps).2 = 0%nat
  /\ kills_of 1 (shutdown_agents 0 ps).2 <> 1%nat.
Proof. by vm_compute. Qed.

(** C4 (amended): about any one handle, [shutdown_agents] does this and
    nothing more: a terminate request if the child is running, one wait, and
    one kill exactly when that wait ends in [TimeoutExpired], which is when
    the child is not gone one grace period after the wait on it began; the
    kill is the last thing done about the handle. A child that exits within
    the grace period after its request is never killed. *)
Theorem one_wait_then_at_most_one_kill now ps i name p :
  NoDup (pids ps) ->
  ps !! i = Some (name, p) ->
  exists from until,
    now <= from <= now + N.of_nat i * PROCESS_TERMINATE_TIMEOUT
    /\ List.filter (concerns (pid p)) (shutdown_agents now ps).2
       = (if running now (name, p) then [ETerminate (pid p) now] else [])
         ++ EWait (pid p) from until
                  (negb (ends_by (from + PROCESS_TERMINATE_TIMEOUT)
                                 (after_request now (name, p)).2))
         :: (if negb (ends_by (from + PROCESS_TERMINATE_TIMEOUT)
                              (after_request now (name, p)).2)
             then [EKill (pid p) until] else [])
    /\ kills_of (pid p) (shutdown_agents now ps).2
       = (if ends_by (from + PROCESS_TERMINATE_TIMEOUT)
                     (after_request now (name, p)).2
          then 0 else 1)%nat
    /\ (ends_by (now + PROCESS_TERMINATE_TIMEOUT)
                (after_request now (name, p)).2 = true ->
        kills_of (pid p) (shutdown_agents now ps).2 = 0%nat).
Proof.
  intros Hnd Hi.
  destruct (terminate_if_running_entry now (name, p)) as [Hname Hid].
  destruct (after_request now (name, p)) as [name1 p1] eqn:Hreq.
  simpl in Hname, Hid. subst name1.
  assert (pid p1 = pid p) as Hpid by (unfold identity in Hid; congruence).
  assert (NoDup (pids (send_terminate now ps).1)) as Hnd1.
  { by rewrite (entries_pids _ _ (send_terminate_entries now ps)). }
  pose proof (send_terminate_lookup now ps i _ Hi) as Hi1. rewrite Hreq in Hi1.
  destruct (await_all_about now _ i name p1 Hnd1 Hi1) as (from & Hfrom & Hawait).
  destruct (wait_or_kill_spec from name p1) as (Hevs & _ & _).
  exists from, (wait_or_kill from (name, p1)).1.1. simpl.
  assert (List.filter (concerns (pid p)) (shutdown_agents now ps).2
          = (if running now (name, p) then [ETerminate (pid p) now] else [])
            ++ EWait (pid p) from (wait_or_kill from (name, p1)).1.1
                     (negb (ends_by (from + PROCESS_TERMINATE_TIMEOUT) p1))
            :: (if negb (ends_by (from + PROCESS_TERMINATE_TIMEOUT) p1)
                then [EKill (pid p) (wait_or_kill from (name, p1)).1.1]
                else [])) as Habout.
  { rewrite shutdown_agents_events.
    change (?e :: ?l ++ ?l') with ([e] ++ l ++ l').
    rewrite !List.filter_app.
    pose proof (send_terminate_about now ps i (name, p) Hnd Hi) as Hsent.
    cbn [snd] in Hsent. rewrite Hsent.
    rewrite <- Hpid, Hawait, Hevs. simpl.
    destruct (negb _); simpl; rewrite Nat.eqb_refl; simpl;
      by rewrite ?app_nil_r. }
  assert (kills_of (pid p) (shutdown_agents now ps).2
          = (if ends_by (from + PROCESS_TERMINATE_TIMEOUT) p1
             then 0 else 1)%nat) as Hkills.
  { unfold kills_of. rewrite filter_and, Habout, List.filter_app.
    destruct (running now (name, p)), (ends_by _ p1); done. }
  split; [done|]. split; [done|]. split; [done|].
  intros Hgone. rewrite Hkills.
  by rewrite (ends_by_mono (now + PROCESS_TERMINATE_TIMEOUT)
                (from + PROCESS_TERMINATE_TIMEOUT) p1) by (lia || done).
Qed.

Lemma one_wait_then_at_most_one_kill_witness :
  let ps := [("a.yaml", popen_of 0 Scenario.stubborn);
             ("b.yaml", popen_of 1 Scenario.obedient)] in
  NoDup (pids ps)
  /\ ps !! 1%nat = Some ("b.yaml", popen_of 1 Scenario.obedient)
  /\ ends_by (0 + PROCESS_TERMINATE_TIMEOUT)
             (after_request 0 ("b.yaml", popen_of 1 Scenario.obedient)).2 = true
  /\ kills_of 1 (shutdown_agents 0 ps).2 = 0%nat.
Proof.
  cbv zeta.
  assert (NoDup (pids [("a.yaml", popen_of 0 Scenario.stubborn);
                       ("b.yaml", popen_of 1 Scenario.obedient)])) as Hnd.
  { by apply (bool_decide_unpack _); vm_compute. }
  split; [exact Hnd|]. split; [reflexivity|].
  assert (ends_by (0 + PROCESS_TERMINATE_TIMEOUT)
            (after_request 0 ("b.yaml", popen_of 1 Scenario.obedient)).2 = true)
    as Hgone by (by vm_compute).
  split; [exact Hgone|].
  destruct (one_wait_then_at_most_one_kill 0 _ 1 "b.yaml"
              (popen_of 1 Scenario.obedient) Hnd eq_refl)
    as (from & until & _ & _ & _ & Hnokill).
  exact (Hnokill Hgone).
Defined.











(** C9: when the router is not reachable, an end of input or an interrupt
    at the prompt ends the run in [sys.exit(130)] with no process created,
    which is the end the run has when the operator declines. *)
Theorem eof_or_interrupt_at_gate_aborts E C agent_dir agents cfg :
  reachable C = false ->
  answer C = EOFError \/ answer C = KeyboardInterrupt ->
  (check_and_run E C agent_dir agents cfg).1 = (SysExit 130, [])
  /\ EXIT_USER_ABORT = 130%Z
  /\ Forall (fun e => is_spawn e = false)
            (check_and_run E C agent_dir agents cfg).2
  /\ (forall response,
        PyStr.lower response <> "y" ->
        (check_and_run E (with_answer C (Typed response))
                       agent_dir agents cfg).1
        = (check_and_run E C agent_dir agents cfg).1
        /\ Forall (fun e => is_spawn e = false)
                  (check_and_run E (with_answer C (Typed response))
                                 agent_dir agents cfg).2).
Proof.
  intros Hdown Hanswer. unfold check_and_run, with_answer. simpl.
  rewrite Hdown. simpl.
  assert (forall response, PyStr.lower response <> "y" ->
            negb (PyStr.lower response =? "y")%string = true) as Hdecline.
  { intros response Hne. by apply negb_true_iff, String.eqb_neq. }
  destruct Hanswer as [-> | ->]; simpl;
    (split; [done|]; split; [done|]; split; [by repeat constructor|];
     intros response Hne; rewrite (Hdecline _ Hne); simpl;
     split; [done|by repeat constructor]).
Qed.

Lemma eof_or_interrupt_at_gate_aborts_witness :
  let C := mkCircumstances false EOFError None 5 in
  reachable C = false
  /\ (answer C = EOFError \/ answer C = KeyboardInterrupt)
  /\ (check_and_run World.env C ["agent"] ["a.yaml"]
                    (World.cfg ["a.yaml"])).1 = (SysExit 130, []).
Proof.
  cbv zeta. split; [reflexivity|]. split; [by left|].
  destruct (eof_or_interrupt_at_gate_aborts World.env
              (mkCircumstances false EOFError None 5) ["agent"] ["a.yaml"]
              (World.cfg ["a.yaml"]) eq_refl (or_introl eq_refl))
    as (Hend & _).
  exact Hend.
Defined.

(** C10: neither [monitor_processes] nor [shutdown_agents] adds, removes
    or reorders handles: the sequence of names and children is the same
    before and after. *)
Theorem handle_set_is_preserved :
  (forall fuel intr ps, entries (monitor_processes fuel intr ps).1.2 = entries ps)
  /\ (forall now ps, entries (shutdown_agents now ps).1.2 = entries ps).
Proof.
  split; [apply monitor_processes_entries|apply shutdown_agents_entries].
Qed.

(** * Further properties *)

(** ** Shutdown: what is left behind, and how long it takes *)

Lemma poll_sigkill now p : sigkill_at (poll now p).2 = sigkill_at p.
Proof.
  unfold poll. destruct (returncode p); [done|].
  destruct (death p) as [[d c]|]; [|done].
  by destruct (d <=? now).
Qed.

Lemma terminate_sigkill now p : sigkill_at (terminate now p) = sigkill_at p.
Proof.
  unfold terminate. pose proof (poll_sigkill now p) as H.
  destruct (poll now p) as [[c|] p1]; simpl in H; [done|].
  by destruct (sigterm_at p1).
Qed.

Lemma after_request_sigkill now h :
  sigkill_at (after_request now h).2 = sigkill_at h.2.
Proof.
  unfold after_request, terminate_if_running. destruct h as [name p]. simpl.
  pose proof (poll_sigkill now p) as H.
  destruct (poll now p) as [[c|] p1]; simpl in *; [done|].
  by rewrite terminate_sigkill.
Qed.

(** When the body of the second loop is over, the child is gone. *)
Lemma wait_or_kill_gone now name p :
  sigkill_at p = None ->
  ends_by (wait_or_kill now (name, p)).1.1 (wait_or_kill now (name, p)).1.2.2
  = true.
Proof.
  intros Hnokill. unfold wait_or_kill, wait.
  destruct (returncode p) eqn:Hrc; simpl.
  { unfold ends_by. by rewrite Hrc. }
  assert (forall t, ends_by t (kill t p) = true
                    \/ is_Some (poll t p).1) as Hkill.
  { intros t. unfold kill. destruct (poll t p) as [[c|] p1] eqn:Hpoll; simpl.
    - right. by eexists.
    - left. unfold poll in Hpoll. rewrite Hrc in Hpoll.
      assert (p1 = p) as ->.
      { destruct (death p) as [[d c]|]; [destruct (d <=? t)|]; by simplify_eq. }
      rewrite Hnokill. unfold ends_by. simpl. rewrite Hrc.
      destruct (earliest_le (exit_candidates (set_sigkill t p)) t (- SIGKILL)%Z)
        as (d & c & Hd & Hle).
      { unfold exit_candidates. simpl. rewrite !in_app_iff. right. right.
        by left. }
      unfold death. rewrite Hd. by apply N.leb_le. }
  destruct (death p) as [[d c]|] eqn:Hdeath.
  - destruct (N.leb_spec d (now + PROCESS_TERMINATE_TIMEOUT)); simpl.
    + done.
    + destruct (Hkill (now + PROCESS_TERMINATE_TIMEOUT)) as [?|[c' Hc']]; [done|].
      unfold poll in Hc'. rewrite Hrc, Hdeath in Hc'.
      destruct (N.leb_spec d (now + PROCESS_TERMINATE_TIMEOUT)); [lia|done].
  - simpl. destruct (Hkill (now + PROCESS_TERMINATE_TIMEOUT)) as [?|[c' Hc']];
      [done|].
    unfold poll in Hc'. by rewrite Hrc, Hdeath in Hc'.
Qed.

Lemma await_all_gone now ps :
  Forall (fun h => sigkill_at h.2 = None) ps ->
  now <= (await_all now ps).1.1
         <= now + N.of_nat (List.length ps) * PROCESS_TERMINATE_TIMEOUT
  /\ Forall (fun h => ends_by (await_all now ps).1.1 h.2 = true)
            (await_all now ps).1.2.
Proof.
  revert now. induction ps as [|[name p] rest IH]; intros now Hall.
  { simpl. split; [lia|constructor]. }
  apply Forall_cons in Hall as [Hp Hrest].
  rewrite await_all_cons; cbv zeta; cbn [fst snd].
  destruct (wait_or_kill_spec now name p) as (_ & Ht & _).
  pose proof (wait_or_kill_gone now name p Hp) as Hgone.
  destruct (IH (wait_or_kill now (name, p)).1.1 Hrest) as [Hend Hothers].
  split.
  - cbn [List.length]. lia.
  - constructor; [|done].
    eapply ends_by_mono; [|exact Hgone]. lia.
Qed.

Lemma shutdown_agents_end now ps :
  (shutdown_agents now ps).1.1 = (await_all now (send_terminate now ps).1).1.1.
Proof.
  unfold shutdown_agents. destruct (send_terminate now ps) as [ps1 evs1].
  simpl. by destruct (await_all now ps1) as [[tend ps2] evs2].
Qed.

(** X1: when [shutdown_agents] returns, no child of the session is running
    any more: each one has been reaped by [wait] or has received SIGKILL, and
    is gone at the instant of the return. The children are those of a
    session, to which nobody has sent SIGKILL before. *)
Theorem shutdown_leaves_no_child_running now ps :
  Forall (fun h => sigkill_at h.2 = None) ps ->
  Forall (fun h => ends_by (shutdown_agents now ps).1.1 h.2 = true)
         (shutdown_agents now ps).1.2.
Proof.
  intros Hall. rewrite shutdown_agents_end, shutdown_agents_procs.
  apply await_all_gone. rewrite send_terminate_procs.
  apply Forall_forall. intros h' Hin.
  apply list_elem_of_fmap in Hin as (h & -> & Hin).
  rewrite after_request_sigkill.
  rewrite Forall_forall in Hall. by apply Hall.
Qed.

Lemma shutdown_leaves_no_child_running_witness :
  let ps := [("a.yaml", popen_of 0 Scenario.stubborn);
             ("b.yaml", popen_of 1 Scenario.slow)] in
  Forall (fun h => sigkill_at h.2 = None) ps
  /\ Forall (fun h => ends_by (shutdown_agents 0 ps).1.1 h.2 = true)
            (shutdown_agents 0 ps).1.2.
Proof.
  cbv zeta.
  assert (Forall (fun h : Handle => sigkill_at h.2 = None)
            [("a.yaml", popen_of 0 Scenario.stubborn);
             ("b.yaml", popen_of 1 Scenario.slow)]) as Hall
    by (by repeat constructor).
  split; [exact Hall|].
  exact (shutdown_leaves_no_child_running 0 _ Hall).
Defined.

Lemma shutdown_agents_duration now ps :
  now <= (shutdown_agents now ps).1.1
  <= now + N.of_nat (List.length ps) * PROCESS_TERMINATE_TIMEOUT.
Proof.
  rewrite shutdown_agents_end.
  assert (List.length ps = List.length (send_terminate now ps).1) as ->.
  { by rewrite send_terminate_procs, List.length_map. }
  generalize (send_terminate now ps).1. intros ps1. revert now.
  induction ps1 as [|[name p] rest IH]; intros now; [simpl; lia|].
  rewrite await_all_cons; cbv zeta; cbn [fst snd].
  destruct (wait_or_kill_spec now name p) as (_ & Ht & _).
  specialize (IH (wait_or_kill now (name, p)).1.1).
  cbn [List.length]. lia.
Qed.

(** X2: [shutdown_agents] returns no later than one grace period per handle
    after it began, and never before it began; with no handle it returns at
    once. *)
Theorem shutdown_takes_at_most_one_grace_period_per_handle now ps :
  now <= (shutdown_agents now ps).1.1
  <= now + N.of_nat (List.length ps) * PROCESS_TERMINATE_TIMEOUT
  /\ (ps = [] -> (shutdown_agents now ps).1.1 = now).
Proof.
  split; [apply shutdown_agents_duration|]. by intros ->.
Qed.

(** What [shutdown_agents] does about one handle of a session: its part of
    the first loop, then its part of the second, when its turn comes. *)
Lemma shutdown_agents_about now ps i name p :
  NoDup (pids ps) ->
  ps !! i = Some (name, p) ->
  exists from,
    now <= from <= now + N.of_nat i * PROCESS_TERMINATE_TIMEOUT
    /\ List.filter (concerns (pid p)) (shutdown_agents now ps).2
       = (if running now (name, p) then [ETerminate (pid p) now] else [])
         ++ List.filter (concerns (pid p))
              (wait_or_kill from (after_request now (name, p))).2.
Proof.
  intros Hnd Hi.
  destruct (terminate_if_running_entry now (name, p)) as [Hname Hid].
  destruct (after_request now (name, p)) as [name1 p1] eqn:Hreq.
  simpl in Hname, Hid. subst name1.
  assert (pid p1 = pid p) as Hpid by (unfold identity in Hid; congruence).
  assert (NoDup (pids (send_terminate now ps).1)) as Hnd1.
  { by rewrite (entries_pids _ _ (send_terminate_entries now ps)). }
  pose proof (send_terminate_lookup now ps i _ Hi) as Hi1. rewrite Hreq in Hi1.
  destruct (await_all_about now _ i name p1 Hnd1 Hi1) as (from & Hfrom & Hawait).
  exists from. split; [done|].
  rewrite shutdown_agents_events.
  change (?e :: ?l ++ ?l') with ([e] ++ l ++ l').
  rewrite !List.filter_app.
  pose proof (send_terminate_about now ps i (name, p) Hnd Hi) as Hsent.
  cbn [snd] in Hsent. rewrite Hsent.
  rewrite <- Hpid, Hawait. simpl. by rewrite app_nil_r.
Qed.

(** X3: a child found already exited when [shutdown_agents] begins gets no
    signal at all, neither SIGTERM nor SIGKILL: all that is done about it is
    one wait, which returns at once. *)
Theorem exited_child_is_only_waited_for now ps i name p :
  NoDup (pids ps) ->
  ps !! i = Some (name, p) ->
  running now (name, p) = false ->
  exists from,
    now <= from <= now + N.of_nat i * PROCESS_TERMINATE_TIMEOUT
    /\ List.filter (concerns (pid p)) (shutdown_agents now ps).2
       = [EWait (pid p) from from false].
Proof.
  intros Hnd Hi Hexited.
  destruct (shutdown_agents_about now ps i name p Hnd Hi) as (from & Hfrom & ->).
  exists from. split; [done|]. rewrite Hexited. simpl.
  unfold running in Hexited. simpl in Hexited.
  unfold after_request, terminate_if_running.
  pose proof (poll_identity now p) as Hid.
  destruct (poll now p) as [[c|] p1] eqn:Hpoll; [|done]. simpl in Hid.
  assert (returncode p1 = Some c) as Hrc.
  { unfold poll in Hpoll. destruct (returncode p) eqn:Hrc0; [by simplify_eq|].
    destruct (death p) as [[d c']|]; [|done].
    destruct (d <=? now); by simplify_eq. }
  unfold wait_or_kill, wait. simpl. rewrite Hrc. simpl.
  unfold identity in Hid. replace (pid p1) with (pid p) by congruence.
  by rewrite Nat.eqb_refl.
Qed.

Lemma exited_child_is_only_waited_for_witness :
  let ps := [("a.yaml", popen_of 0 Scenario.stubborn);
             ("x.yaml", popen_of 1 Scenario.crasher)] in
  NoDup (pids ps)
  /\ ps !! 1%nat = Some ("x.yaml", popen_of 1 Scenario.crasher)
  /\ running 1700 ("x.yaml", popen_of 1 Scenario.crasher) = false
  /\ exists from,
       List.filter (concerns 1) (shutdown_agents 1700 ps).2
       = [EWait 1 from from false].
Proof.
  cbv zeta.
  assert (NoDup (pids [("a.yaml", popen_of 0 Scenario.stubborn);
                       ("x.yaml", popen_of 1 Scenario.crasher)])) as Hnd.
  { by apply (bool_decide_unpack _); vm_compute. }
  assert (running 1700 ("x.yaml", popen_of 1 Scenario.crasher) = false)
    as Hexited by (by vm_compute).
  split; [exact Hnd|]. split; [reflexivity|]. split; [exact Hexited|].
  destruct (exited_child_is_only_waited_for 1700 _ 1 "x.yaml"
              (popen_of 1 Scenario.crasher) Hnd eq_refl Hexited)
    as (from & _ & Habout).
  exists from. exact Habout.
Defined.

(** ** The monitor: when it returns, and what it reports *)

Lemma death_untouched p :
  untouched p ->
  death p = match b_exit_at (behaviour p) with
            | Some e => Some (e, b_exit_code (behaviour p))
            | None => None
            end.
Proof.
  intros (_ & Hterm & Hkill). unfold death, exit_candidates.
  rewrite Hterm, Hkill. by destruct (b_exit_at (behaviour p)).
Qed.

Lemma poll_running now p :
  untouched p -> outlives now p -> poll now p = (None, p).
Proof.
  intros Hp Hout. unfold poll. rewrite (death_untouched p Hp).
  destruct Hp as (-> & _). unfold outlives in Hout.
  destruct (b_exit_at (behaviour p)) as [e|]; [|done].
  destruct (N.leb_spec e now); [lia|done].
Qed.


Lemma outlives_earlier t t' p : t' <= t -> outlives t p -> outlives t' p.
Proof.
  unfold outlives. destruct (b_exit_at (behaviour p)); [lia|done].
Qed.

Section MoreScanFacts.

Variable now : N.

(** A child polled running keeps its place and its state, and is counted. *)
Lemma scan_keeps_running ps stop rep alive i name p :
  ps !! i = Some (name, p) ->
  poll now p = (None, p) ->
  sc_procs (scan now stop ps rep alive) !! i = Some (name, p)
  /\ (runs stop i -> (alive < sc_alive (scan now stop ps rep alive))%nat).
Proof.
  revert stop rep alive i.
  induction ps as [|[name' proc] rest IH]; intros stop rep alive i Hi Hpoll;
    [done|].
  destruct i as [|j]; simpl in Hi.
  - simplify_eq. simpl. destruct stop as [[|pos]|]; simpl.
    + split; [done|lia].
    + rewrite Hpoll. simpl. split; [done|]. intros _.
      pose proof (scan_alive_ge now rest (Some pos) rep (S alive)). lia.
    + rewrite Hpoll. simpl. split; [done|]. intros _.
      pose proof (scan_alive_ge now rest None rep (S alive)). lia.
  - assert (forall s r a,
        sc_procs (scan now s rest r a) !! j = Some (name, p)
        /\ (runs s j -> (a < sc_alive (scan now s rest r a))%nat)) as IH'.
    { intros. by apply IH. }
    assert (forall s' : option nat,
        (runs stop (S j) -> runs s' j) ->
        let r := let '(rc, proc1) := poll now proc in
                 match rc with
                 | None =>
                     scan_cons (name', proc1) []
                       (scan now s' rest rep (S alive))
                 | Some _ =>
                     if decide (name' ∈ rep)
                     then scan_cons (name', proc1) []
                            (scan now s' rest rep alive)
                     else
                       let '(evs, proc2) := handle_dead_agent name' proc1 in
                       scan_cons (name', proc2) evs
                         (scan now s' rest ({[name']} ∪ rep) alive)
                 end in
        sc_procs r !! S j = Some (name, p)
        /\ (runs stop (S j) -> (alive < sc_alive r)%nat)) as Hbody.
    { intros s' Hruns. cbv zeta.
      destruct (poll now proc) as [[c|] proc1]; simpl;
        [destruct (decide (name' ∈ rep)); simpl;
         [|destruct (handle_dead_agent name' proc1); simpl]|].
      - destruct (IH' s' rep alive) as [Ha Hb]. split; [done|].
        intros Hr. by apply Hb, Hruns.
      - destruct (IH' s' ({[name']} ∪ rep) alive) as [Ha Hb]. split; [done|].
        intros Hr. by apply Hb, Hruns.
      - destruct (IH' s' rep (S alive)) as [Ha Hb]. split; [done|].
        intros Hr. specialize (Hb (Hruns Hr)). lia. }
    simpl. destruct stop as [[|pos]|]; simpl.
    + split; [done|lia].
    + apply (Hbody (Some pos)). simpl. lia.
    + by apply (Hbody None).
Qed.

End MoreScanFacts.

(** While a child neither exits nor is signalled, the loop does not end by
    itself. *)
Lemma monitor_loop_keeps_polling fuel cycle ps rep i name p :
  ps !! i = Some (name, p) ->
  untouched p ->
  b_exit_at (behaviour p) = None ->
  m_exit (monitor_loop fuel None cycle ps rep) = StillLooping.
Proof.
  intros Hi Hp Hnever. revert cycle ps rep Hi.
  induction fuel as [|fuel IH]; intros cycle ps rep Hi; [done|].
  assert (poll (cycle_time cycle) p = (None, p)) as Hpoll.
  { apply poll_running; [done|]. unfold outlives. by rewrite Hnever. }
  destruct (scan_keeps_running (cycle_time cycle) ps None rep 0 i name p
              Hi Hpoll) as [Hkeep Hcount].
  cbn [monitor_loop]; cbv zeta. simpl stop_in. simpl sleep_cut.
  rewrite scan_not_raised.
  destruct (decide _) as [Hnone|Hsome].
  { specialize (Hcount I). lia. }
  simpl. by apply IH.
Qed.

(** An interrupt during the sleep after cycle [c] is what ends the loop when
    a child is still running at that cycle. *)
Lemma monitor_loop_interrupted fuel cycle ps rep i name p c after :
  ps !! i = Some (name, p) ->
  untouched p ->
  outlives (cycle_time c) p ->
  (cycle <= c < cycle + fuel)%nat ->
  m_exit (monitor_loop fuel (Some (InSleep c after)) cycle ps rep)
  = Interrupted (cycle_time c + N.min after POLL_INTERVAL).
Proof.
  intros Hi Hp Hout. revert cycle ps rep Hi.
  induction fuel as [|fuel IH]; intros cycle ps rep Hi Hc; [lia|].
  assert (poll (cycle_time cycle) p = (None, p)) as Hpoll.
  { apply poll_running; [done|].
    eapply outlives_earlier; [|exact Hout].
    unfold cycle_time, POLL_INTERVAL. lia. }
  destruct (scan_keeps_running (cycle_time cycle) ps None rep 0 i name p
              Hi Hpoll) as [Hkeep Hcount].
  cbn [monitor_loop]; cbv zeta. simpl stop_in.
  rewrite scan_not_raised.
  destruct (decide _) as [Hnone|Hsome].
  { specialize (Hcount I). lia. }
  unfold sleep_cut. destruct (decide (c = cycle)) as [->|Hne]; [done|].
  simpl. apply IH; [done|lia].
Qed.

(** X4: as long as one child of the session keeps running and no interrupt
    comes, [monitor_processes] does not return, however many polling cycles
    are followed. The child is one that never exits by itself and that
    nobody has signalled or reaped. *)
Theorem monitor_does_not_return_while_a_child_runs fuel ps i name p :
  ps !! i = Some (name, p) ->
  untouched p ->
  b_exit_at (behaviour p) = None ->
  (monitor_processes fuel None ps).1.1 = NoReturn
  /\ quiet (monitor_processes fuel None ps).2.
Proof.
  intros Hi Hp Hnever.
  pose proof (monitor_loop_keeps_polling fuel 0 ps ∅ i name p Hi Hp Hnever)
    as Hloop.
  split.
  - unfold monitor_processes. simpl. by rewrite Hloop.
  - rewrite monitor_processes_events. cbv zeta. rewrite Hloop.
    apply monitor_loop_quiet.
Qed.

Lemma monitor_does_not_return_while_a_child_runs_witness :
  let ps := [("x.yaml", popen_of 0 Scenario.crasher);
             ("b.yaml", popen_of 1 Scenario.obedient)] in
  ps !! 1%nat = Some ("b.yaml", popen_of 1 Scenario.obedient)
  /\ untouched (popen_of 1 Scenario.obedient)
  /\ b_exit_at (behaviour (popen_of 1 Scenario.obedient)) = None
  /\ (monitor_processes 50 None ps).1.1 = NoReturn.
Proof.
  cbv zeta. split; [reflexivity|].
  assert (untouched (popen_of 1 Scenario.obedient)) as Hp by (by repeat split).
  split; [exact Hp|]. split; [reflexivity|].
  destruct (monitor_does_not_return_while_a_child_runs 50
              [("x.yaml", popen_of 0 Scenario.crasher);
               ("b.yaml", popen_of 1 Scenario.obedient)] 1 "b.yaml"
              (popen_of 1 Scenario.obedient) eq_refl Hp eq_refl) as [Hend _].
  exact Hend.
Defined.

(** X5: an interrupt that falls in the sleep after polling cycle [c], while
    a child is still running, ends the monitor through [shutdown_agents]:
    shutdown begins at the instant of the interrupt, right after the record
    of the interrupt, and the monitor returns at most one grace period per
    handle later. *)
Theorem interrupt_in_sleep_starts_shutdown fuel ps i name p c after :
  ps !! i = Some (name, p) ->
  untouched p ->
  outlives (cycle_time c) p ->
  (c < fuel)%nat ->
  exists ended pre post,
    (monitor_processes fuel (Some (InSleep c after)) ps).1.1
    = AfterShutdown (cycle_time c + N.min after POLL_INTERVAL) ended
    /\ ended <= cycle_time c + N.min after POLL_INTERVAL
                + N.of_nat (List.length ps) * PROCESS_TERMINATE_TIMEOUT
    /\ quiet pre
    /\ (monitor_processes fuel (Some (InSleep c after)) ps).2
       = pre ++ log INFO "Received interrupt signal" []
             :: log INFO "Shutting down %d agent(s)..."
                    [AInt (Z.of_nat (List.length ps))]
             :: post.
Proof.
  intros Hi Hp Hout Hc.
  pose proof (monitor_loop_interrupted fuel 0 ps ∅ i name p c after Hi Hp Hout)
    as Hloop.
  specialize (Hloop ltac:(lia)).
  set (r := monitor_loop fuel (Some (InSleep c after)) 0 ps ∅) in *.
  set (t := cycle_time c + N.min after POLL_INTERVAL) in *.
  assert (List.length (m_procs r) = List.length ps) as Hlen.
  { pose proof (monitor_loop_entries (Some (InSleep c after)) fuel 0 ps ∅) as H.
    apply (f_equal (@List.length _)) in H. unfold entries in H.
    by rewrite !List.length_map in H. }
  exists (shutdown_agents t (m_procs r)).1.1, (m_events r).
  eexists. split; [|split; [|split]].
  - unfold monitor_processes. simpl. fold r. rewrite Hloop.
    by destruct (shutdown_agents t (m_procs r)) as [[tend ps'] evs].
  - pose proof (shutdown_agents_duration t (m_procs r)) as H.
    rewrite Hlen in H. lia.
  - apply monitor_loop_quiet.
  - rewrite monitor_processes_events. cbv zeta. fold r. rewrite Hloop.
    rewrite shutdown_agents_events, Hlen. reflexivity.
Qed.

Lemma interrupt_in_sleep_starts_shutdown_witness :
  let ps := [("x.yaml", popen_of 0 Scenario.crasher);
             ("b.yaml", popen_of 1 Scenario.obedient)] in
  ps !! 1%nat = Some ("b.yaml", popen_of 1 Scenario.obedient)
  /\ untouched (popen_of 1 Scenario.obedient)
  /\ outlives (cycle_time 3) (popen_of 1 Scenario.obedient)
  /\ (3 < 10)%nat
  /\ exists ended,
       (monitor_processes 10 (Some (InSleep 3 250)) ps).1.1
       = AfterShutdown 3250 ended.
Proof.
  cbv zeta. split; [reflexivity|].
  assert (untouched (popen_of 1 Scenario.obedient)) as Hp by (by repeat split).
  assert (outlives (cycle_time 3) (popen_of 1 Scenario.obedient)) as Hout
    by exact I.
  assert (3 < 10)%nat as Hc by lia.
  split; [exact Hp|]. split; [exact Hout|]. split; [exact Hc|].
  destruct (interrupt_in_sleep_starts_shutdown 10
              [("x.yaml", popen_of 0 Scenario.crasher);
               ("b.yaml", popen_of 1 Scenario.obedient)] 1 "b.yaml"
              (popen_of 1 Scenario.obedient) 3 250 eq_refl Hp Hout Hc)
    as (ended & pre & post & Hend & _).
  exists ended. exact Hend.
Defined.

Lemma handle_dead_agent_returncode name p :
  returncode (handle_dead_agent name p).2 = returncode p.
Proof.
  unfold handle_dead_agent, stdout_read.
  destruct (drained p); simpl; [done|].
  by destruct (PyStr.truthy (b_output (behaviour p))).
Qed.

Lemma poll_answer_is_kept now p c :
  (poll now p).1 = Some c -> returncode (poll now p).2 = Some c.
Proof.
  unfold poll. destruct (returncode p) eqn:Hrc; simpl; [congruence|].
  destruct (death p) as [[d c']|]; [|done].
  destruct (d <=? now); simpl; congruence.
Qed.

(** After a full pass that counted nobody alive, every child is reaped. *)
Lemma scan_all_reaped now ps stop rep alive :
  sc_raised (scan now stop ps rep alive) = false ->
  sc_alive (scan now stop ps rep alive) = alive ->
  Forall (fun h => is_Some (returncode h.2)) (sc_procs (scan now stop ps rep alive)).
Proof.
  revert stop rep alive.
  induction ps as [|[name proc] rest IH]; intros stop rep alive;
    [by constructor|].
  simpl. destruct stop as [[|pos]|]; simpl; [done|..];
    (pose proof (poll_answer_is_kept now proc) as Hkept;
     destruct (poll now proc) as [[c|] proc1]; simpl in *;
     [destruct (decide (name ∈ rep)); simpl;
      [|pose proof (handle_dead_agent_returncode name proc1) as Hrc;
        destruct (handle_dead_agent name proc1) as [evs proc2]; simpl in *]|];
     intros Hr Ha;
     try (constructor; [simpl; rewrite ?Hrc, (Hkept c eq_refl); by eexists
                       |by eapply IH]);
     match type of Ha with
     | sc_alive (scan now ?s ?l ?r (S ?a)) = _ =>
         pose proof (scan_alive_ge now l s r (S a)); lia
     end).
Qed.

Lemma monitor_loop_broke_reaped intr fuel cycle ps rep :
  m_exit (monitor_loop fuel intr cycle ps rep) = Broke ->
  Forall (fun h => is_Some (returncode h.2))
         (m_procs (monitor_loop fuel intr cycle ps rep))
  /\ last (m_events (monitor_loop fuel intr cycle ps rep))
     = Some all_exited_record.
Proof.
  revert cycle ps rep.
  induction fuel as [|fuel IH]; intros cycle ps rep; [done|].
  cbn [monitor_loop]; cbv zeta.
  destruct (sc_raised (scan (cycle_time cycle) (stop_in intr cycle) ps rep 0))
    eqn:Hraised; [done|].
  destruct (decide _) as [Hnone|Hsome]; simpl.
  - intros _. split; [by apply scan_all_reaped|]. apply last_snoc.
  - destruct (sleep_cut intr cycle); [done|]. simpl. intros Hbroke.
    destruct (IH _ _ _ Hbroke) as [Hall Hlast]. split; [done|].
    destruct (m_events (monitor_loop fuel intr (S cycle) _ _)) as [|e evs]
      eqn:Hevs; [done|].
    by rewrite last_app, Hlast.
Qed.

(** X6: when the monitor ends by itself, every child of the session has
    been reaped (its [returncode] is set), the last record of the run is
    "All agents have exited", and nothing of [shutdown_agents] happened. *)
Theorem natural_end_has_reaped_every_child fuel intr ps :
  (monitor_processes fuel intr ps).1.1 = Natural ->
  Forall (fun h => is_Some (returncode h.2)) (monitor_processes fuel intr ps).1.2
  /\ last (monitor_processes fuel intr ps).2 = Some all_exited_record
  /\ quiet (monitor_processes fuel intr ps).2.
Proof.
  intros Hnat. apply monitor_processes_end in Hnat.
  destruct (monitor_loop_broke_reaped intr fuel 0 ps ∅ Hnat) as [Hall Hlast].
  rewrite monitor_processes_events. cbv zeta.
  unfold monitor_processes. simpl. rewrite Hnat. simpl.
  split; [done|]. split; [done|]. apply monitor_loop_quiet.
Qed.

Lemma natural_end_has_reaped_every_child_witness :
  let ps := [("x.yaml", popen_of 0 Scenario.crasher)] in
  (monitor_processes 5 None ps).1.1 = Natural
  /\ Forall (fun h => is_Some (returncode h.2)) (monitor_processes 5 None ps).1.2.
Proof.
  cbv zeta.
  assert ((monitor_processes 5 None [("x.yaml", popen_of 0 Scenario.crasher)]).1.1
          = Natural) as Hnat by (by vm_compute).
  split; [exact Hnat|].
  destruct (natural_end_has_reaped_every_child 5 None _ Hnat) as [Hall _].
  exact Hall.
Defined.

(** ** The report a child gets is its own *)






(** ** What the launcher hands to a child *)

Lemma path_parent_div (d : Path) (x : string) : path_parent (path_div d x) = d.
Proof. unfold path_parent, path_div. apply removelast_last. Qed.

Lemma spawns_app evs evs' : spawns (evs ++ evs') = spawns evs ++ spawns evs'.
Proof. apply omap_app. Qed.

Section MoreLauncherFacts.

Variables (E : Env) (agent_dir : Path)
          (crossbar_url realm address_root env : string).

Local Abbreviation launch n agents :=
  (start_each E n agent_dir (path_div agent_dir "agent.py") agents
              crossbar_url realm address_root env).

(** The object [start_agent_process] returns, when called as [start_agents]
    calls it. *)
Lemma start_agent_process_fresh n agent_yaml :
  let p := (start_agent_process E n (path_div agent_dir "agent.py") agent_yaml
              crossbar_url realm address_root env).1 in
  pid p = n
  /\ args p = command_line E agent_dir agent_yaml crossbar_url realm address_root
  /\ behaviour p = child E n (args p) env
  /\ untouched p /\ drained p = false.
Proof.
  unfold start_agent_process, command_line. simpl.
  rewrite path_parent_div. by repeat split.
Qed.

Lemma start_each_fresh n agents :
  Forall (fun h =>
            found E agent_dir h.1 = true
            /\ args h.2 = command_line E agent_dir h.1
                                       crossbar_url realm address_root
            /\ behaviour h.2 = child E (pid h.2) (args h.2) env
            /\ untouched h.2 /\ drained h.2 = false)
         (launch n agents).1.
Proof.
  revert n. induction agents as [|a rest IH]; intros n; [by constructor|].
  rewrite start_each_cons.
  destruct (found E agent_dir a) eqn:Hfound; cbv zeta; cbn [fst snd];
    [|apply IH].
  constructor; [|apply IH]. cbn [fst snd].
  destruct (start_agent_process_fresh n a) as (Hpid & Hargs & Hbeh & Hun & Hdr).
  cbv zeta in *. rewrite Hpid. by repeat split.
Qed.

(** The children created, as the trace tells, are the children held. *)
Lemma start_each_spawned n agents :
  spawns (launch n agents).2 = map (fun h => (pid h.2, h.1)) (launch n agents).1.
Proof.
  revert n. induction agents as [|a rest IH]; intros n; [done|].
  rewrite start_each_cons.
  destruct (found E agent_dir a); cbv zeta; cbn [fst snd].
  - change (log INFO "Starting %s" [AStr a] :: ?l)
      with ([log INFO "Starting %s" [AStr a]] ++ l).
    rewrite !spawns_app, IH. reflexivity.
  - change (skip_warning a :: ?l) with ([skip_warning a] ++ l).
    rewrite spawns_app, IH. reflexivity.
Qed.

End MoreLauncherFacts.

(** X8: the definition file a child is started on is the file whose
    existence [start_agents] has checked: [start_agent_process] rebuilds the
    path from the directory of [agent.py], which is the agent directory.
    Every handle returned holds a child just created (not reaped, no signal
    sent, pipe unread) on the command line of its own name, with
    [OCS_CONFIG_DIR] the [ocs-config] directory next to the script. *)
Theorem child_runs_on_the_file_that_was_checked
        E agent_dir agents url realm root processes evs :
  start_agents E agent_dir agents url realm root = (inr processes, evs) ->
  Forall (fun h =>
            found E agent_dir h.1 = true
            /\ args h.2 = command_line E agent_dir h.1 url realm root
            /\ behaviour h.2
               = child E (pid h.2) (args h.2)
                       (path_str (path_div (SCRIPT_DIR E) "ocs-config"))
            /\ untouched h.2 /\ drained h.2 = false)
         processes.
Proof.
  intros Hstart. pose proof (start_agents_inr _ _ _ _ _ _ _ _ Hstart) as Heach.
  pose proof (start_each_fresh E agent_dir url realm root
                (path_str (path_div (SCRIPT_DIR E) "ocs-config")) 0 agents)
    as Hfresh.
  by rewrite <- Heach in Hfresh.
Qed.

Lemma child_runs_on_the_file_that_was_checked_witness :
  exists processes evs,
    start_agents World.env ["agent"] ["c.yaml"; "b.yaml"]
                 "ws://localhost:8001/ws" "test_realm" "observatory"
    = (inr processes, evs)
    /\ Forall (fun h =>
                 found World.env ["agent"] h.1 = true
                 /\ args h.2
                    = command_line World.env ["agent"] h.1
                        "ws://localhost:8001/ws" "test_realm" "observatory"
                 /\ behaviour h.2
                    = child World.env (pid h.2) (args h.2)
                        (path_str (path_div (SCRIPT_DIR World.env)
                                            "ocs-config"))
                 /\ untouched h.2 /\ drained h.2 = false)
              processes.
Proof.
  eexists _, _. split; [by vm_compute|].
  exact (child_runs_on_the_file_that_was_checked World.env ["agent"]
           ["c.yaml"; "b.yaml"] "ws://localhost:8001/ws" "test_realm"
           "observatory" _ _ eq_refl).
Defined.

Lemma start_agents_spawns E agent_dir agents url realm root processes evs :
  start_agents E agent_dir agents url realm root = (inr processes, evs) ->
  spawns evs = map (fun h => (pid h.2, h.1)) processes.
Proof.
  intros Hstart. pose proof (start_agents_inr _ _ _ _ _ _ _ _ Hstart) as Heach.
  pose proof (start_each_spawned E agent_dir url realm root
                (path_str (path_div (SCRIPT_DIR E) "ocs-config")) 0 agents)
    as Hspawned.
  by rewrite <- Heach in Hspawned.
Qed.

(** X9: [start_agents] holds every child it creates: the children created,
    as the trace tells them, are those of the handles returned, with their
    names, in order, and they are numbered from the first one on. *)
Theorem every_child_created_is_held
        E agent_dir agents url realm root processes evs :
  start_agents E agent_dir agents url realm root = (inr processes, evs) ->
  spawns evs = map (fun h => (pid h.2, h.1)) processes
  /\ pids processes = seq 0 (List.length processes).
Proof.
  intros Hstart. split; [by eapply start_agents_spawns|].
  pose proof (start_agents_inr _ _ _ _ _ _ _ _ Hstart) as Heach.
  pose proof (start_each_pids E agent_dir (path_div agent_dir "agent.py")
                url realm root
                (path_str (path_div (SCRIPT_DIR E) "ocs-config")) 0 agents)
    as Hpids.
  by rewrite <- Heach in Hpids.
Qed.

Lemma every_child_created_is_held_witness :
  exists processes evs,
    start_agents World.env ["agent"] ["b.yaml"; "c.yaml"; "a.yaml"]
                 "ws://localhost:8001/ws" "test_realm" "observatory"
    = (inr processes, evs)
    /\ spawns evs = [(0%nat, "b.yaml"); (1%nat, "a.yaml")]
    /\ pids processes = [0%nat; 1%nat].
Proof.
  eexists _, _. split; [by vm_compute|].
  exact (every_child_created_is_held World.env ["agent"]
           ["b.yaml"; "c.yaml"; "a.yaml"] "ws://localhost:8001/ws"
           "test_realm" "observatory" _ _ eq_refl).
Defined.

(** ** The ends of a run *)

Lemma launch_and_monitor_exit E C agent_dir agents cfg code :
  (launch_and_monitor E C agent_dir agents cfg).1.1 = SysExit code ->
  (code = EXIT_AGENT_DIR_NOT_FOUND \/ code = EXIT_NO_AGENTS)
  /\ (launch_and_monitor E C agent_dir agents cfg).1.2 = []
  /\ spawns (launch_and_monitor E C agent_dir agents cfg).2 = [].
Proof.
  unfold launch_and_monitor.
  destruct (start_agents E agent_dir agents (cfg_url cfg) (cfg_realm cfg)
              (cfg_address_root cfg)) as [[c|[|h rest]] evs] eqn:Hstart.
  - simpl. intros [= ->]. unfold start_agents in Hstart.
    destruct (negb _); [|by destruct (start_each _ _ _ _ _ _ _ _ _)].
    simplify_eq. split; [by left|done].
  - simpl. intros [= <-]. split; [by right|]. split; [done|].
    by rewrite spawns_app, (start_agents_spawns _ _ _ _ _ _ _ _ Hstart).
  - by destruct (monitor_processes _ _ _) as [[how ps] evs'].
Qed.

Lemma launch_and_monitor_returned E C agent_dir agents cfg how :
  (launch_and_monitor E C agent_dir agents cfg).1.1 = MainReturned how ->
  names (launch_and_monitor E C agent_dir agents cfg).1.2
  = List.filter (found E agent_dir) agents
  /\ (launch_and_monitor E C agent_dir agents cfg).1.2 <> [].
Proof.
  unfold launch_and_monitor.
  destruct (start_agents E agent_dir agents (cfg_url cfg) (cfg_realm cfg)
              (cfg_address_root cfg)) as [[c|[|h rest]] evs] eqn:Hstart;
    [done..|].
  intros _.
  pose proof (monitor_processes_entries (patience C) (interrupt C) (h :: rest))
    as Hentries.
  destruct (monitor_processes _ _ _) as [[how' ps] evs']. cbn [fst snd] in *.
  split.
  - rewrite (entries_names _ _ Hentries).
    pose proof (start_agents_inr _ _ _ _ _ _ _ _ Hstart) as Heach.
    rewrite <- (start_each_names E agent_dir (path_div agent_dir "agent.py")
                  (cfg_url cfg) (cfg_realm cfg) (cfg_address_root cfg)
                  (path_str (path_div (SCRIPT_DIR E) "ocs-config")) 0).
    by rewrite <- Heach.
  - intros ->. done.
Qed.

Lemma to_lower_y c :
  PyStr.to_lower c = "y"%char -> c = "y"%char \/ c = "Y"%char.
Proof.
  destruct c as [[] [] [] [] [] [] [] []]; vm_compute; intros H;
    first [discriminate H | by left | by right].
Qed.

(** [response.lower() == "y"] holds of two answers. *)
Lemma lower_y response :
  PyStr.lower response = "y" <-> response = "y" \/ response = "Y".
Proof.
  split.
  - destruct response as [|c [|c' r]]; simpl; [done| |done].
    intros [= Hc]. by destruct (to_lower_y c Hc) as [-> | ->]; [left|right].
  - by intros [-> | ->].
Qed.

Lemma check_and_run_exit E C agent_dir agents cfg code :
  (check_and_run E C agent_dir agents cfg).1.1 = SysExit code ->
  (code = EXIT_AGENT_DIR_NOT_FOUND \/ code = EXIT_NO_AGENTS
   \/ code = EXIT_USER_ABORT)
  /\ (check_and_run E C agent_dir agents cfg).1.2 = []
  /\ spawns (check_and_run E C agent_dir agents cfg).2 = [].
Proof.
  unfold check_and_run.
  pose proof (launch_and_monitor_exit E C agent_dir agents cfg code) as Hlaunch.
  destruct (launch_and_monitor E C agent_dir agents cfg) as [[e ps] evs'].
  cbn [fst snd] in Hlaunch.
  destruct (reachable C); simpl.
  - intros He. destruct (Hlaunch He) as ([?|?] & ? & ?); by auto.
  - unfold confirm.
    destruct (answer C) as [response| |]; simpl;
      [destruct (negb _); simpl|..];
      try (intros [= <-]; by auto).
    intros He. destruct (Hlaunch He) as ([?|?] & ? & ?); by auto.
Qed.

Lemma check_and_run_returned E C agent_dir agents cfg how :
  (check_and_run E C agent_dir agents cfg).1.1 = MainReturned how ->
  names (check_and_run E C agent_dir agents cfg).1.2
  = List.filter (found E agent_dir) agents
  /\ (check_and_run E C agent_dir agents cfg).1.2 <> [].
Proof.
  unfold check_and_run.
  pose proof (launch_and_monitor_returned E C agent_dir agents cfg how)
    as Hlaunch.
  destruct (launch_and_monitor E C agent_dir agents cfg) as [[e ps] evs'].
  cbn [fst snd] in Hlaunch.
  destruct (reachable C); simpl; [done|].
  destruct (confirm _ _) as [[c|] evs]; simpl; done.
Qed.

Lemma filter_none_invalid (available agents : list string) :
  filter (fun a => a ∉ available) agents = [] ->
  filter (fun a => a ∈ available) agents = agents.
Proof.
  induction agents as [|a rest IH]; [done|].
  rewrite !filter_cons.
  destruct (decide (a ∉ available)) as [Hout|Hin]; [done|].
  intros Hrest. destruct (decide (a ∈ available)); [|done].
  by rewrite IH.
Qed.

Lemma main_configured_cases E C config_path agent_dir available cfg :
  (valid_agents available cfg = []
   /\ (main_configured E C config_path agent_dir available cfg).1
      = (SysExit EXIT_NO_AGENTS, [])
   /\ spawns (main_configured E C config_path agent_dir available cfg).2 = [])
  \/ (valid_agents available cfg <> []
      /\ (main_configured E C config_path agent_dir available cfg).1
         = (check_and_run E C agent_dir (valid_agents available cfg) cfg).1
      /\ spawns (main_configured E C config_path agent_dir available cfg).2
         = spawns (check_and_run E C agent_dir (valid_agents available cfg)
                                 cfg).2).
Proof.
  unfold main_configured, valid_agents.
  destruct (filter (fun a => a ∉ available) (cfg_agents cfg))
    as [|bad others] eqn:Hbad.
  - rewrite (filter_none_invalid _ _ Hbad). cbv zeta.
    destruct (cfg_agents cfg) as [|a rest] eqn:Hagents.
    + left. by repeat split.
    + right. split; [done|].
      destruct (check_and_run E C agent_dir (a :: rest) cfg) as [[e ps] evs].
      by repeat split.
  - cbv zeta.
    destruct (filter (fun a => a ∈ available) (cfg_agents cfg))
      as [|a rest] eqn:Hgood.
    + left. by repeat split.
    + right. split; [done|].
      destruct (check_and_run E C agent_dir (a :: rest) cfg) as [[e ps] evs].
      by repeat split.
Qed.

(** X10: whenever the run, from the validation of the configured agents on,
    ends in [sys.exit], the code is 2 (no [agent.py]), 3 (no agent to start
    or none started) or 130 (the operator did not confirm), and no child
    process has been created: every [sys.exit] of this part comes before the
    first [Popen], or after a launch that created none. *)
Theorem exit_leaves_no_child_behind
        E C config_path agent_dir available cfg code :
  (main_configured E C config_path agent_dir available cfg).1.1
  = SysExit code ->
  (code = 2%Z \/ code = 3%Z \/ code = 130%Z)
  /\ (main_configured E C config_path agent_dir available cfg).1.2 = []
  /\ spawns (main_configured E C config_path agent_dir available cfg).2 = [].
Proof.
  destruct (main_configured_cases E C config_path agent_dir available cfg)
    as [(_ & Hend & Hsp)|(_ & Hend & Hsp)]; rewrite Hend, Hsp.
  - simpl. intros [= <-]. by auto.
  - apply check_and_run_exit.
Qed.

Lemma exit_leaves_no_child_behind_witness :
  let r := main_configured World.env (mkCircumstances false (Typed "no") None 5)
             ["dev"; "config.yaml"] ["agent"] ["a.yaml"; "b.yaml"]
             (World.cfg ["a.yaml"]) in
  r.1.1 = SysExit 130 /\ r.1.2 = [] /\ spawns r.2 = [].
Proof.
  cbv zeta. split; [reflexivity|].
  destruct (exit_leaves_no_child_behind World.env
              (mkCircumstances false (Typed "no") None 5)
              ["dev"; "config.yaml"] ["agent"] ["a.yaml"; "b.yaml"]
              (World.cfg ["a.yaml"]) 130 eq_refl) as (_ & Hps & Hsp).
  split; [exact Hps|exact Hsp].
Defined.

(** X11: when the run gets as far as the monitor, the handles are those of
    the configured agents that are both available in the agent directory
    and still found there at launch, in the order of the configuration; an
    identifier configured twice is held twice. *)
Theorem launched_are_configured_available_and_found
        E C config_path agent_dir available cfg how :
  (main_configured E C config_path agent_dir available cfg).1.1
  = MainReturned how ->
  names (main_configured E C config_path agent_dir available cfg).1.2
  = List.filter (found E agent_dir) (valid_agents available cfg)
  /\ (main_configured E C config_path agent_dir available cfg).1.2 <> [].
Proof.
  destruct (main_configured_cases E C config_path agent_dir available cfg)
    as [(_ & Hend & _)|(_ & Hend & _)]; rewrite Hend; [done|].
  apply check_and_run_returned.
Qed.

Lemma launched_are_configured_available_and_found_witness :
  let r := main_configured World.env World.calm_run
             ["dev"; "config.yaml"] ["agent"] ["a.yaml"; "c.yaml"]
             (World.cfg ["c.yaml"; "b.yaml"; "a.yaml"; "a.yaml"]) in
  r.1.1 = MainReturned Natural
  /\ names r.1.2 = ["a.yaml"; "a.yaml"].
Proof.
  cbv zeta. split; [by vm_compute|].
  destruct (launched_are_configured_available_and_found World.env
              World.calm_run ["dev"; "config.yaml"] ["agent"]
              ["a.yaml"; "c.yaml"]
              (World.cfg ["c.yaml"; "b.yaml"; "a.yaml"; "a.yaml"])
              Natural ltac:(by vm_compute)) as [Hnames _].
  exact Hnames.
Defined.

(** X12: at the confirmation gate (router not reachable, the operator
    typed a line), the run goes on exactly when the line is [y] or [Y]:
    any other line, [yes] or a [y] with a blank after it included, ends
    the run in [sys.exit(130)]; and after [y] or [Y] the run ends as the
    launch and the monitor end. *)
Theorem gate_opens_on_y_alone E C agent_dir agents cfg response :
  reachable C = false ->
  answer C = Typed response ->
  ((check_and_run E C agent_dir agents cfg).1.1 = SysExit EXIT_USER_ABORT
   <-> ~ (response = "y" \/ response = "Y"))
  /\ (response = "y" \/ response = "Y" ->
      (check_and_run E C agent_dir agents cfg).1
      = (launch_and_monitor E C agent_dir agents cfg).1).
Proof.
  intros Hdown Hanswer. unfold check_and_run, confirm.
  rewrite Hdown, Hanswer. cbn [negb].
  pose proof (launch_and_monitor_exit E C agent_dir agents cfg EXIT_USER_ABORT)
    as Hlaunch.
  destruct (launch_and_monitor E C agent_dir agents cfg) as [[e ps] evs'].
  cbn [fst snd] in Hlaunch.
  destruct (String.eqb (PyStr.lower response) "y") eqn:Hy; cbn [negb fst snd].
  - apply String.eqb_eq, lower_y in Hy. split; [|done]. split; [|done].
    intros He. by destruct (Hlaunch He) as ([?|?] & _).
  - apply String.eqb_neq in Hy. rewrite lower_y in Hy. split; [done|].
    intros Hyes. by destruct Hy.
Qed.

Lemma gate_opens_on_y_alone_witness :
  let C := mkCircumstances false (Typed "yes") None 5 in
  reachable C = false
  /\ answer C = Typed "yes"
  /\ (check_and_run World.env C ["agent"] ["a.yaml"]
                    (World.cfg ["a.yaml"])).1.1
     = SysExit EXIT_USER_ABORT.
Proof.
  cbv zeta. split; [reflexivity|]. split; [reflexivity|].
  destruct (gate_opens_on_y_alone World.env
              (mkCircumstances false (Typed "yes") None 5)
              ["agent"] ["a.yaml"] (World.cfg ["a.yaml"]) "yes"
              eq_refl eq_refl) as [[_ Hclosed] _].
  apply Hclosed. by intros [?|?].
Defined.

(** ** The lines of a report *)









(** ** The order of the available agents *)

Lemma ascii_compare_eq a b : Ascii.compare a b = Eq -> a = b.
Proof.
  unfold Ascii.compare. rewrite N.compare_eq_iff.
  intros H. rewrite <- (ascii_N_embedding a), <- (ascii_N_embedding b).
  by rewrite H.
Qed.

Lemma ascii_compare_lt_trans a b c :
  Ascii.compare a b = Lt -> Ascii.compare b c = Lt -> Ascii.compare a c = Lt.
Proof. unfold Ascii.compare. rewrite !N.compare_lt_iff. lia. Qed.

Lemma str_le_trans a b c : str_le a b -> str_le b c -> str_le a c.
Proof.
  unfold str_le, String.leb.
  revert b c. induction a as [|x a IH]; intros [|y b] [|z c]; simpl; try done.
  destruct (Ascii.compare x y) eqn:Hxy, (Ascii.compare y z) eqn:Hyz;
    try done.
  - apply ascii_compare_eq in Hxy as ->. rewrite Hyz. apply IH.
  - apply ascii_compare_eq in Hxy as ->. by rewrite Hyz.
  - apply ascii_compare_eq in Hyz as <-. by rewrite Hxy.
  - by rewrite (ascii_compare_lt_trans _ _ _ Hxy Hyz).
Qed.

#[local] Instance str_le_transitive : Transitive str_le.
Proof. intros a b c. apply str_le_trans. Qed.

#[local] Instance str_le_total : Total str_le.
Proof. intros a b. apply String.leb_total. Qed.

#[local] Instance str_le_antisym : AntiSymm (=) str_le.
Proof. intros a b. apply String.leb_antisym. Qed.

Lemma sorted_sorted l : StronglySorted str_le (sorted l).
Proof. apply StronglySorted_merge_sort; apply _. Qed.

Lemma sorted_Permutation l : sorted l ≡ₚ l.
Proof. apply merge_sort_Permutation. Qed.

(** The sorted list is the same whatever the order of the list sorted. *)
Lemma sorted_unique l l' : l ≡ₚ l' -> sorted l = sorted l'.
Proof.
  intros Hperm. apply (StronglySorted_unique str_le); try apply sorted_sorted.
  by rewrite !sorted_Permutation.
Qed.

Lemma not_excluded name :
  name ∉ EXCLUDED_YAML_FILES
  <-> name <> "config.yaml" /\ name <> "site-config.yaml".
Proof.
  unfold EXCLUDED_YAML_FILES.
  rewrite not_elem_of_union, !not_elem_of_singleton. tauto.
Qed.

Lemma discover_agents_found E H agent_dir :
  path_exists E agent_dir = true ->
  (discover_agents E H agent_dir).1
  = sorted (filter (fun name => name ∉ EXCLUDED_YAML_FILES)
                   (glob_yaml H agent_dir)).
Proof. unfold discover_agents. by intros ->. Qed.

(** X15: in a directory that exists, [discover_agents] returns the names
    the pattern yields other than [config.yaml] and [site-config.yaml], each
    as often as the pattern yields it (once, then, for the entries of a
    directory), in ascending order of [str]. *)
Theorem discovery_lists_the_agent_files_in_order E H agent_dir :
  path_exists E agent_dir = true ->
  let agents := (discover_agents E H agent_dir).1 in
  StronglySorted str_le agents
  /\ agents ≡ₚ filter (fun name => name ∉ EXCLUDED_YAML_FILES)
                      (glob_yaml H agent_dir)
  /\ (forall name,
        name ∈ agents
        <-> name ∈ glob_yaml H agent_dir
            /\ name <> "config.yaml" /\ name <> "site-config.yaml")
  /\ (NoDup (glob_yaml H agent_dir) -> NoDup agents).
Proof.
  intros Hdir. cbv zeta. rewrite (discover_agents_found _ _ _ Hdir).
  split; [apply sorted_sorted|].
  split; [apply sorted_Permutation|].
  split.
  - intros name. rewrite sorted_Permutation, list_elem_of_filter, not_excluded.
    tauto.
  - intros Hnd. rewrite sorted_Permutation. by apply NoDup_filter.
Qed.

Lemma discovery_lists_the_agent_files_in_order_witness :
  let H := Site.host ["b.yaml"; "config.yaml"; "a.yaml"] (Site.document []) in
  path_exists Site.env ["agent"] = true
  /\ (discover_agents Site.env H ["agent"]).1 ≡ₚ ["b.yaml"; "a.yaml"]
  /\ StronglySorted str_le (discover_agents Site.env H ["agent"]).1.
Proof.
  cbv zeta. split; [reflexivity|].
  destruct (discovery_lists_the_agent_files_in_order Site.env
              (Site.host ["b.yaml"; "config.yaml"; "a.yaml"] (Site.document []))
              ["agent"] eq_refl) as (Hsorted & Hperm & _).
  split; [exact Hperm|exact Hsorted].
Defined.

(** X16: the list of available agents does not depend on the order in
    which the file system lists the directory: two listings that hold the
    same names give the same list, and the same record of the discovery. *)
Theorem discovery_is_independent_of_listing_order E H H' agent_dir :
  glob_yaml H agent_dir ≡ₚ glob_yaml H' agent_dir ->
  discover_agents E H agent_dir = discover_agents E H' agent_dir.
Proof.
  intros Hperm. unfold discover_agents.
  destruct (negb (path_exists E agent_dir)); [done|]. cbv zeta.
  assert (filter (fun name => name ∉ EXCLUDED_YAML_FILES)
                 (glob_yaml H agent_dir)
          ≡ₚ filter (fun name => name ∉ EXCLUDED_YAML_FILES)
                    (glob_yaml H' agent_dir)) as Hfiltered.
  { by rewrite Hperm. }
  rewrite (sorted_unique _ _ Hfiltered).
  by rewrite (Permutation_length Hfiltered).
Qed.

Lemma discovery_is_independent_of_listing_order_witness :
  discover_agents Site.env
    (Site.host ["b.yaml"; "config.yaml"; "a.yaml"] (Site.document []))
    ["agent"]
  = discover_agents Site.env
      (Site.host ["a.yaml"; "b.yaml"; "config.yaml"] (Site.document []))
      ["agent"].
Proof.
  apply discovery_is_independent_of_listing_order. simpl.
  change ["b.yaml"; "config.yaml"; "a.yaml"]
    with (["b.yaml"; "config.yaml"] ++ ["a.yaml"]).
  change ["a.yaml"; "b.yaml"; "config.yaml"]
    with (["a.yaml"] ++ ["b.yaml"; "config.yaml"]).
  apply Permutation_app_comm.
Defined.

(** ** Loading the configuration *)

Lemma lookup_str_present s items :
  existsb (fun kv => py_eq_str s kv.1) items = true ->
  is_Some (lookup_str s items).
Proof.
  unfold lookup_str. induction items as [|kv rest IH]; [done|]. simpl.
  destruct (py_eq_str s kv.1); [by eexists|]. exact IH.
Qed.

Lemma load_config_outcome E H config_path :
  let r := load_config E H config_path in
  match r.1 with
  | Returned config =>
      config = safe_load H config_path
      /\ path_exists E config_path = true
      /\ exists items section agents,
           config = PyDict items
           /\ lookup_str "crossbar" items = Some section
           /\ Forall (fun f => py_in f section = (Returned true, []))
                     required_fields
           /\ lookup_str "agents" items = Some agents
           /\ py_truthy agents = true
  | Exited code =>
      code = EXIT_CONFIG_ERROR
      /\ exists r0, last r.2 = Some (ELog r0) /\ lr_level r0 = ERROR
  | Raised exn =>
      exn = TypeError
      /\ path_exists E config_path = true
      /\ forall items,
           safe_load H config_path = PyDict items ->
           exists truth, lookup_str "crossbar" items = Some (PyScalar truth)
  end.
Proof.
  cbv zeta. unfold load_config.
  destruct (path_exists E config_path); cbn [negb]; [|by simpl; eauto].
  destruct (safe_load H config_path) as [t|s|its|its|items] eqn:Hdoc.
  - simpl. by repeat split.
  - simpl. destruct (occurs "crossbar" s); simpl; [by repeat split|by eauto].
  - simpl. destruct (existsb _ its); simpl; [by repeat split|by eauto].
  - simpl. destruct (existsb _ its); simpl; [by repeat split|by eauto].
  - cbn [py_in mbind Run_bind mret Run_ret emit].
    destruct (existsb (fun kv => py_eq_str "crossbar" kv.1) items) eqn:Hin;
      [|by simpl; eauto].
    destruct (lookup_str_present _ _ Hin) as [section Hsection].
    assert (forall f,
      (exists truth, section = PyScalar truth)
      \/ (exists b, py_in f section = (Returned b, []))) as Hfield.
    { intros f. destruct section; simpl; eauto. }
    unfold required_fields. cbn [check_fields py_getitem].
    rewrite Hsection.
    destruct (Hfield "url") as [[truth ->]|[b1 H1]];
      [simpl; split; [done|]; split; [done|]; intros ? [= <-]; by eauto|].
    cbn [negb mbind Run_bind mret Run_ret].
    rewrite H1.
    destruct b1; [|by simpl; eauto].
    cbn [negb mbind Run_bind mret Run_ret].
    destruct (Hfield "realm") as [[truth ->]|[b2 H2]]; [done|].
    rewrite H2.
    destruct b2; [|by simpl; eauto].
    cbn [negb mbind Run_bind mret Run_ret].
    destruct (Hfield "address_root") as [[truth ->]|[b3 H3]]; [done|].
    rewrite H3.
    destruct b3; [|by simpl; eauto].
    cbn [negb mbind Run_bind mret Run_ret py_get].
    destruct (lookup_str "agents" items) as [agents|] eqn:Hagents;
      [|by simpl; eauto].
    simpl.
    destruct (py_truthy agents) eqn:Htruthy; simpl; [|by eauto].
    split; [done|]. split; [done|].
    exists items, section, agents. by repeat (split || constructor).
Qed.

Lemma py_in_dict_true s fields :
  py_in s (PyDict fields) = (Returned true, []) ->
  is_Some (lookup_str s fields).
Proof. unfold py_in. intros [= Hin]. by apply lookup_str_present. Qed.

(** The four reads of [main], on a document that has the two sections. *)
Lemma read_settings_accepted items section agents :
  lookup_str "crossbar" items = Some section ->
  lookup_str "agents" items = Some agents ->
  Forall (fun f => py_in f section = (Returned true, [])) required_fields ->
  match section with
  | PyDict fields =>
      exists url realm address_root,
        lookup_str "url" fields = Some url
        /\ lookup_str "realm" fields = Some realm
        /\ lookup_str "address_root" fields = Some address_root
        /\ read_settings (PyDict items)
           = (Returned (url, realm, address_root, agents), [])
  | _ => read_settings (PyDict items) = (Raised TypeError, [])
  end.
Proof.
  intros Hsection Hagents Hfields.
  unfold read_settings. cbn [py_getitem]. rewrite Hsection, Hagents.
  destruct section as [t|s|its|its|fields]; try reflexivity.
  unfold required_fields in Hfields.
  apply Forall_cons in Hfields as [Hurl Hfields].
  apply Forall_cons in Hfields as [Hrealm Hfields].
  apply Forall_cons in Hfields as [Hroot _].
  destruct (py_in_dict_true _ _ Hurl) as [url Hu].
  destruct (py_in_dict_true _ _ Hrealm) as [realm Hr].
  destruct (py_in_dict_true _ _ Hroot) as [address_root Ha].
  exists url, realm, address_root.
  split; [done|]. split; [done|]. split; [done|].
  cbn [mbind Run_bind mret Run_ret py_getitem]. rewrite Hu. cbn [app].
  rewrite Hr. cbn [app]. rewrite Ha. reflexivity.
Qed.

(** X17: a document that [load_config] accepts is a mapping with a
    [crossbar] entry and an [agents] entry that is not empty, and the reads
    [main] makes of it raise no [KeyError]: when the [crossbar] section is
    a mapping it has the three fields and the four reads give their values;
    a section that is not a mapping (a list or a text that holds the three
    names passes the tests made with [in]) makes the first read raise
    [TypeError]. *)
Theorem accepted_configuration_has_what_main_reads E H config_path config :
  (load_config E H config_path).1 = Returned config ->
  config = safe_load H config_path
  /\ exists items section agents,
       config = PyDict items
       /\ lookup_str "crossbar" items = Some section
       /\ lookup_str "agents" items = Some agents
       /\ py_truthy agents = true
       /\ match section with
          | PyDict fields =>
              exists url realm address_root,
                lookup_str "url" fields = Some url
                /\ lookup_str "realm" fields = Some realm
                /\ lookup_str "address_root" fields = Some address_root
                /\ read_settings config
                   = (Returned (url, realm, address_root, agents), [])
          | _ => read_settings config = (Raised TypeError, [])
          end.
Proof.
  intros Hload. pose proof (load_config_outcome E H config_path) as Hout.
  cbv zeta in Hout. rewrite Hload in Hout.
  destruct Hout as (Hdoc & _ & items & section & agents & -> & Hsection
                    & Hfields & Hagents & Htruthy).
  split; [done|]. exists items, section, agents.
  split; [done|]. split; [done|]. split; [done|]. split; [done|].
  by apply read_settings_accepted.
Qed.

Lemma accepted_configuration_has_what_main_reads_witness :
  let H := Site.host [] (Site.document ["a.yaml"]) in
  (load_config Site.env H ["dev"; "mock-agents.yaml"]).1
  = Returned (Site.document ["a.yaml"])
  /\ read_settings (Site.document ["a.yaml"])
     = (Returned (PyStr "ws://localhost:8001/ws", PyStr "test_realm",
                  PyStr "observatory", PySeq [PyStr "a.yaml"]), []).
Proof.
  cbv zeta. split; [reflexivity|].
  destruct (accepted_configuration_has_what_main_reads Site.env
              (Site.host [] (Site.document ["a.yaml"]))
              ["dev"; "mock-agents.yaml"] (Site.document ["a.yaml"]) eq_refl)
    as (_ & items & section & agents & Hdoc & Hsection & Hagents & _ & Hreads).
  injection Hdoc as <-.
  injection Hsection as <-. injection Hagents as <-.
  destruct Hreads as (url & realm & root & Hu & Hr & Ha & Hreads).
  injection Hu as <-. injection Hr as <-. injection Ha as <-.
  exact Hreads.
Defined.


(** ** The head of [main] *)
















(** X20: with [--list] and an agent directory that exists, [main] ends in
    [sys.exit(0)] without looking at the configuration file, at the router
    or at any agent: all it does is record the discovery and print the
    directory, the number of available agents and one line for each of
    them, in ascending order, [config.yaml] and [site-config.yaml] left
    out. *)
Theorem listing_needs_no_configuration E H C args :
  path_exists E (agent_dir_of H args) = true ->
  arg_list_agents args = true ->
  exists agents,
    StronglySorted str_le agents
    /\ agents ≡ₚ filter (fun name => name ∉ EXCLUDED_YAML_FILES)
                        (glob_yaml H (agent_dir_of H args))
    /\ main E H C args
       = (Ended (SysExit EXIT_SUCCESS), [],
          log DEBUG "Discovered %d agent(s) in %s"
              [AInt (Z.of_nat (List.length agents));
               AStr (path_str (agent_dir_of H args))]
          :: print_agent_list (agent_dir_of H args) agents).
Proof.
  intros Hdir Hlist.
  exists (sorted (filter (fun name => name ∉ EXCLUDED_YAML_FILES)
                         (glob_yaml H (agent_dir_of H args)))).
  split; [apply sorted_sorted|]. split; [apply sorted_Permutation|].
  unfold main, discover_agents. fold (agent_dir_of H args).
  rewrite Hdir, Hlist. cbn [negb]. cbv zeta. cbn [app].
  by rewrite (Permutation_length (sorted_Permutation _)).
Qed.

Lemma listing_needs_no_configuration_witness :
  let H := Site.host ["b.yaml"; "config.yaml"; "a.yaml"] (PyScalar false) in
  exists agents,
    agents ≡ₚ ["b.yaml"; "a.yaml"]
    /\ main Site.env H World.calm_run (Site.args true)
       = (Ended (SysExit 0), [],
          log DEBUG "Discovered %d agent(s) in %s"
              [AInt (Z.of_nat (List.length agents)); AStr "agent"]
          :: print_agent_list ["agent"] agents).
Proof.
  cbv zeta.
  destruct (listing_needs_no_configuration Site.env
              (Site.host ["b.yaml"; "config.yaml"; "a.yaml"] (PyScalar false))
              World.calm_run (Site.args true) eq_refl eq_refl)
    as (agents & _ & Hperm & Hmain).
  exists agents. split; [exact Hperm|exact Hmain].
Defined.





